(** * multicode: the PTY-backed session subsystem

    A shallow embedding of
      - [src/components/Terminal.tsx]: the colour resolver [xtermColorToRGBA],
        the compositor [extractStyledText], the input router [sendKey] and
        the debounced [scheduleUpdate];
      - [pty-helper.mjs]: the supervisor with its session-resume fallback.

    JavaScript numbers that the code only ever uses as integers are [Z];
    [undefined]/[null] results are [option]; module-level [let] variables
    are fields of an explicit state record that every handler threads. *)

From Stdlib Require Import ZArith NArith List String Ascii Bool Lia Permutation.
Import ListNotations.
Local Open Scope Z_scope.

(* ================================================================== *)
(** ** JavaScript operations the code relies on *)
(* ================================================================== *)

Module Js.

(** [arr[i]] for an integer [i]: [undefined] outside [0 .. length-1]. *)
Definition index {A : Type} (arr : list A) (i : Z) : option A :=
  if i <? 0 then None else nth_error arr (Z.to_nat i).

(** ToInt32, applied by [>>] and [&] to their operands. *)
Definition toInt32 (n : Z) : Z := (n + 2 ^ 31) mod 2 ^ 32 - 2 ^ 31.

(** [a >> k] and [a & m] on numbers holding integers. *)
Definition sar (a k : Z) : Z := Z.shiftr (toInt32 a) k.
Definition band (a m : Z) : Z := Z.land (toInt32 a) (toInt32 m).

(** [Math.floor(a / b)] for integers, [b > 0]. *)
Definition floor_div (a b : Z) : Z := a / b.

(** [a % b]: the remainder takes the sign of the dividend. *)
Definition js_rem (a b : Z) : Z := Z.rem a b.

(** A string in a condition: [undefined], [null] and the empty string
    are false. *)
Definition truthy (o : option string) : bool :=
  match o with
  | Some (String _ _) => true
  | _ => false
  end.

(** [a || d] for an optional string [a]. *)
Definition orElse (o : option string) (d : string) : string :=
  match o with
  | Some (String _ _ as s) => s
  | _ => d
  end.

Fixpoint indexOfFrom (l : list string) (x : string) (i : Z) : Z :=
  match l with
  | [] => -1
  | y :: rest => if String.eqb y x then i else indexOfFrom rest x (i + 1)
  end.

(** [l.indexOf(x)] *)
Definition indexOf (l : list string) (x : string) : Z := indexOfFrom l x 0.

(** [s.includes(needle)] *)
Fixpoint includes (s needle : string) : bool :=
  String.prefix needle s
  || match s with
     | EmptyString => false
     | String _ rest => includes rest needle
     end.

End Js.

(* ================================================================== *)
(** ** Colour resolver (Terminal.tsx, lines 30-93) *)
(* ================================================================== *)

Module Color.
Import Js.

(** [RGBA.fromInts(r, g, b)] of the rendering library: the three channel
    integers it was built from. *)
Record RGBA := fromInts { red : Z; green : Z; blue : Z }.

Definition COLOR_PALETTE_16 : list RGBA :=
  [ fromInts 0 0 0;
    fromInts 187 0 0;
    fromInts 0 187 0;
    fromInts 187 187 0;
    fromInts 0 0 187;
    fromInts 187 0 187;
    fromInts 0 187 187;
    fromInts 187 187 187;
    fromInts 85 85 85;
    fromInts 255 85 85;
    fromInts 85 255 85;
    fromInts 255 255 85;
    fromInts 85 85 255;
    fromInts 255 85 255;
    fromInts 85 255 255;
    fromInts 255 255 255 ].

Definition CM_DEFAULT : Z := 0.
Definition CM_P16 : Z := 0x1000000.
Definition CM_P256 : Z := 0x2000000.
Definition CM_RGB : Z := 0x3000000.

Definition xtermColorToRGBA (color mode : Z) : option RGBA :=
  if mode =? CM_DEFAULT then None
  else if mode =? CM_P16 then index COLOR_PALETTE_16 color
  else if mode =? CM_P256 then
    if color <? 16 then index COLOR_PALETTE_16 color
    else if color <? 232 then
      let n := color - 16 in
      let r := floor_div n 36 * 51 in
      let g := floor_div (js_rem n 36) 6 * 51 in
      let b := js_rem n 6 * 51 in
      Some (fromInts r g b)
    else
      let gray := (color - 232) * 10 + 8 in
      Some (fromInts gray gray gray)
  else if mode =? CM_RGB then
    let r := band (sar color 16) 0xff in
    let g := band (sar color 8) 0xff in
    let b := band color 0xff in
    Some (fromInts r g b)
  else None.

(** Packing as the claim writes it: [(r << 16) | (g << 8) | b]. *)
Definition pack (r g b : Z) : Z :=
  Z.lor (Z.lor (Z.shiftl r 16) (Z.shiftl g 8)) b.

End Color.

(* ================================================================== *)
(** ** Compositor (Terminal.tsx, lines 98-197) *)
(* ================================================================== *)

Module Compositor.
Import Color.

(** Cell text is a JavaScript string: a sequence of UTF-16 code units.
    Trimming depends on which units are white space, so the units are kept. *)
Definition jsstring := list N.

Definition units (s : string) : jsstring :=
  map N_of_ascii (list_ascii_of_string s).

(** WhiteSpace and LineTerminator code units, as [trim]/[trimEnd] strip them. *)
Definition isWhiteSpace (u : N) : bool :=
  (((0x09 <=? u) && (u <=? 0x0D)) || (u =? 0x20) || (u =? 0xA0)
   || (u =? 0x1680) || ((0x2000 <=? u) && (u <=? 0x200A))
   || (u =? 0x2028) || (u =? 0x2029) || (u =? 0x202F) || (u =? 0x205F)
   || (u =? 0x3000) || (u =? 0xFEFF))%N.

Fixpoint trimStart (s : jsstring) : jsstring :=
  match s with
  | [] => []
  | u :: rest => if isWhiteSpace u then trimStart rest else s
  end.

Definition trimEnd (s : jsstring) : jsstring := rev (trimStart (rev s)).
Definition trim (s : jsstring) : jsstring := trimEnd (trimStart s).

(** A string in a condition is true when it is not empty. *)
Definition nonempty (s : jsstring) : bool :=
  match s with [] => false | _ :: _ => true end.

Definition jseqb (a b : jsstring) : bool :=
  if list_eq_dec N.eq_dec a b then true else false.

(** What the code reads from one cell of the emulator's buffer. The
    [is...] accessors return flag words; [!!] keeps whether they are set. *)
Record Cell := {
  getWidth : Z;
  getChars : jsstring;
  getFgColor : Z;
  getBgColor : Z;
  getFgColorMode : Z;
  getBgColorMode : Z;
  isBold : Z;
  isDim : Z;
  isItalic : Z;
  isUnderline : Z;
  isInverse : Z;
  isStrikethrough : Z
}.

(** [line.getCell(x)] and [buffer.getLine(y)] give [undefined] out of range. *)
Definition Line := list Cell.
Definition Buffer := list Line.
Definition getCell (line : Line) (x : nat) : option Cell := nth_error line x.
Definition getLine (buffer : Buffer) (y : nat) : option Line := nth_error buffer y.

Record TextChunk := {
  text : jsstring;
  fg : option RGBA;
  bg : option RGBA;
  attributes : option Z
}.

(** [!!n] *)
Definition notnot (n : Z) : bool := negb (n =? 0).

(** [n || undefined] *)
Definition orUndefined (n : Z) : option Z := if n =? 0 then None else Some n.

Definition opt_string_eqb (a b : option string) : bool :=
  match a, b with
  | None, None => true
  | Some x, Some y => String.eqb x y
  | _, _ => false
  end.

Record TextAttributesOptions := {
  bold : bool; dim : bool; italic : bool;
  underline : bool; inverse : bool; strikethrough : bool
}.

Section Extract.

(** The rendering library is not part of the repository: its
    [RGBA.prototype.toString] and [createTextAttributes] are parameters. *)
Variable toString : RGBA -> string.
Variable createTextAttributes : TextAttributesOptions -> Z.

(** The variables of the row loop; [chunks] is the array shared by all rows. *)
Record RowState := {
  chunks : list TextChunk;
  currentText : jsstring;
  currentFg : option RGBA;
  currentBg : option RGBA;
  currentAttrs : Z
}.

Definition currentChunk (st : RowState) (t : jsstring) : TextChunk :=
  {| text := t; fg := currentFg st; bg := currentBg st;
     attributes := orUndefined (currentAttrs st) |}.

(** One iteration of the column loop (lines 112-164). The one-off debug
    line written to the log file does not touch any of these variables. *)
Definition cellStep (line : Line) (st : RowState) (x : nat) : RowState :=
  match getCell line x with
  | None => st
  | Some cell =>
    if getWidth cell =? 0 then st
    else
      let char := if nonempty (getChars cell) then getChars cell else units " " in
      let fgColor := getFgColor cell in
      let bgColor := getBgColor cell in
      let fgMode := getFgColorMode cell in
      let bgMode := getBgColorMode cell in
      let fg := xtermColorToRGBA fgColor fgMode in
      let bg := xtermColorToRGBA bgColor bgMode in
      let attrs := createTextAttributes
        {| bold := notnot (isBold cell);
           dim := notnot (isDim cell);
           italic := notnot (isItalic cell);
           underline := notnot (isUnderline cell);
           inverse := notnot (isInverse cell);
           strikethrough := notnot (isStrikethrough cell) |} in
      let fgChanged :=
        negb (opt_string_eqb (option_map toString fg)
                             (option_map toString (currentFg st))) in
      let bgChanged :=
        negb (opt_string_eqb (option_map toString bg)
                             (option_map toString (currentBg st))) in
      let attrsChanged := negb (attrs =? currentAttrs st) in
      let flushed :=
        (fgChanged || bgChanged || attrsChanged) && nonempty (currentText st) in
      {| chunks := if flushed
                   then chunks st ++ [currentChunk st (currentText st)]
                   else chunks st;
         currentText := (if flushed then [] else currentText st) ++ char;
         currentFg := fg;
         currentBg := bg;
         currentAttrs := attrs |}
  end.

Definition newline : TextChunk :=
  {| text := units (String "010"%char EmptyString);
     fg := None; bg := None; attributes := None |}.

(** One iteration of the row loop (lines 103-184). *)
Definition rowStep (buffer : Buffer) (cols rows : nat)
    (acc : list TextChunk) (y : nat) : list TextChunk :=
  match getLine buffer y with
  | None => acc
  | Some line =>
    let st := fold_left (cellStep line) (seq 0 cols)
                {| chunks := acc; currentText := [];
                   currentFg := None; currentBg := None; currentAttrs := 0 |} in
    let acc1 := if nonempty (currentText st)
                then chunks st ++ [currentChunk st (trimEnd (currentText st))]
                else chunks st in
    if Z.of_nat y <? Z.of_nat rows - 1 then acc1 ++ [newline] else acc1
  end.

(** The [while] loop of lines 187-194, on the array read from its end. *)
Fixpoint popTrailing (reversed : list TextChunk) : list TextChunk :=
  match reversed with
  | [] => []
  | last :: rest =>
    if jseqb (text last) (text newline) || negb (nonempty (trim (text last)))
    then popTrailing rest
    else reversed
  end.

Definition extractStyledText (buffer : Buffer) (cols rows : nat)
    : list TextChunk :=
  let chunks := fold_left (rowStep buffer cols rows) (seq 0 rows) [] in
  rev (popTrailing (rev chunks)).

(** The (foreground, background, attributes) triple of a run. *)
Definition style (c : TextChunk) : option RGBA * option RGBA * option Z :=
  (fg c, bg c, attributes c).

(** The triple as the column loop compares it: colours by their text. *)
Definition styleKey (c : TextChunk)
    : option string * option string * option Z :=
  (option_map toString (fg c), option_map toString (bg c), attributes c).

Definition currentKey (st : RowState)
    : option string * option string * option Z :=
  (option_map toString (currentFg st), option_map toString (currentBg st),
   orUndefined (currentAttrs st)).

(** The runs one line gives: the row loop on that line as the only and
    last row of an empty array. *)
Definition lineRuns (line : Line) (cols : nat) : list TextChunk :=
  rowStep [line] cols 1 [] 0.

(** The row loop never reads the runs already in the array. *)
Definition prepend (acc : list TextChunk) (st : RowState) : RowState :=
  {| chunks := acc ++ chunks st; currentText := currentText st;
     currentFg := currentFg st; currentBg := currentBg st;
     currentAttrs := currentAttrs st |}.

(** What the column loop keeps true of the runs of the row in progress. *)
Definition rowInvariant (st : RowState) : Prop :=
  (currentText st = [] -> chunks st = [])
  /\ (forall l c, chunks st = l ++ [c] -> styleKey c <> currentKey st).

End Extract.

(** No two neighbours of a list are related by [R]. *)
Inductive NoAdjacent {A : Type} (R : A -> A -> Prop) : list A -> Prop :=
| NoAdjacent_nil : NoAdjacent R []
| NoAdjacent_one a : NoAdjacent R [a]
| NoAdjacent_cons a b l :
    ~ R a b -> NoAdjacent R (b :: l) -> NoAdjacent R (a :: b :: l).

Definition sameStyle (a b : TextChunk) : Prop := style a = style b.

(** Two runs of one style, neither of them the newline run. *)
Definition sameStyleInRow (a b : TextChunk) : Prop :=
  sameStyle a b /\ a <> newline /\ b <> newline.

(** Modelled from the spec: the rendering library's [createTextAttributes]
    is not in the repository; the specification calls its result a bitmask
    over bold, dim, italic, underline, inverse and strikethrough. The bit
    values are the library's. *)
Definition textAttributes (o : TextAttributesOptions) : Z :=
  (if bold o then 1 else 0) + (if dim o then 2 else 0)
  + (if italic o then 4 else 0) + (if underline o then 8 else 0)
  + (if inverse o then 32 else 0) + (if strikethrough o then 128 else 0).

(** A printer that keeps the channels of a colour apart, to run the
    extraction on examples; the library's own is a parameter above. *)
Definition channelsText (c : RGBA) : string :=
  String (ascii_of_N (Z.to_N (red c)))
    (String (ascii_of_N (Z.to_N (green c)))
       (String (ascii_of_N (Z.to_N (blue c))) EmptyString)).

(** A single-width cell showing [s] in colour [color] of mode [mode], on
    the default background, with no attribute. *)
Definition cellOf (s : string) (color mode : Z) : Cell :=
  {| getWidth := 1; getChars := units s;
     getFgColor := color; getBgColor := 0;
     getFgColorMode := mode; getBgColorMode := 0;
     isBold := 0; isDim := 0; isItalic := 0; isUnderline := 0;
     isInverse := 0; isStrikethrough := 0 |}.

Definition plainRun (s : string) : TextChunk :=
  {| text := units s; fg := None; bg := None; attributes := None |}.

(** Two red cells, then one in the default colour. *)
Definition twoToneLine : Line :=
  [cellOf "a" 1 CM_P16; cellOf "b" 1 CM_P16; cellOf "c" 0 0].

(** Two rows of one plain cell each. *)
Definition twoPlainRows : Buffer := [[cellOf "a" 0 0]; [cellOf "b" 0 0]].




(** The runs in progress: those closed, and the open one if it has text. *)
Definition runsSoFar (st : RowState) : nat :=
  (List.length (chunks st) + if nonempty (currentText st) then 1 else 0)%nat.

End Compositor.

(* ================================================================== *)
(** ** The Terminal component (Terminal.tsx, lines 199-369) *)
(* ================================================================== *)

Module Terminal.
Local Open Scope string_scope.

(** The argument of [sendKey]: [sequence], [ctrl] and [meta] are optional. *)
Record Key := {
  name : string;
  sequence : option string;
  ctrl : option bool;
  meta : option bool
}.

Definition flagSet (b : option bool) : bool :=
  match b with Some true => true | _ => false end.

Definition ETX : string := String "003"%char EmptyString.
Definition EOT : string := String "004"%char EmptyString.
Definition CR : string := String "013"%char EmptyString.
Definition DEL : string := String "127"%char EmptyString.
Definition ESC : string := String "027"%char EmptyString.

(** The helper process as the component holds it: what has been written to
    its stdin pipe so far, oldest chunk first. *)
Record ChildProcess := {
  stdin : option (list string);
  killed : bool
}.

(** The refs and closure variables of one mounted component, the headless
    terminal and the timers of the runtime.
    - [term]: the chunks written into the headless terminal, in order; the
      screen it shows is a function of them.
    - [displayed]: one entry per run of [updateDisplay]: the time it ran at
      and the terminal state it read.
    - [timers]: the armed timers, identifier and due time. *)
Record State := {
  processRef : option ChildProcess;
  term : list string;
  pendingUpdate : option nat;
  displayed : list (Z * list string);
  clock : Z;
  timers : list (nat * Z);
  nextTimer : nat;
  exitCalls : nat
}.

Definition withProcess (st : State) (p : option ChildProcess) : State :=
  {| processRef := p; term := term st; pendingUpdate := pendingUpdate st;
     displayed := displayed st; clock := clock st; timers := timers st;
     nextTimer := nextTimer st; exitCalls := exitCalls st |}.

Definition withTerm (st : State) (t : list string) : State :=
  {| processRef := processRef st; term := t; pendingUpdate := pendingUpdate st;
     displayed := displayed st; clock := clock st; timers := timers st;
     nextTimer := nextTimer st; exitCalls := exitCalls st |}.

Definition withPending (st : State) (p : option nat) : State :=
  {| processRef := processRef st; term := term st; pendingUpdate := p;
     displayed := displayed st; clock := clock st; timers := timers st;
     nextTimer := nextTimer st; exitCalls := exitCalls st |}.

Definition withDisplayed (st : State) (d : list (Z * list string)) : State :=
  {| processRef := processRef st; term := term st;
     pendingUpdate := pendingUpdate st;
     displayed := d; clock := clock st; timers := timers st;
     nextTimer := nextTimer st; exitCalls := exitCalls st |}.

Definition withClock (st : State) (c : Z) : State :=
  {| processRef := processRef st; term := term st;
     pendingUpdate := pendingUpdate st;
     displayed := displayed st; clock := c; timers := timers st;
     nextTimer := nextTimer st; exitCalls := exitCalls st |}.

Definition withTimers (st : State) (q : list (nat * Z)) (next : nat) : State :=
  {| processRef := processRef st; term := term st;
     pendingUpdate := pendingUpdate st;
     displayed := displayed st; clock := clock st; timers := q;
     nextTimer := next; exitCalls := exitCalls st |}.

(** *** Input router: [sendKey] (lines 213-257) *)

(** [processRef.current?.stdin] *)
Definition stdinOf (st : State) : option (list string) :=
  match processRef st with
  | Some p => stdin p
  | None => None
  end.

(** [processRef.current.stdin.write(data)] *)
Definition write (st : State) (data : string) : State :=
  match processRef st with
  | Some p =>
    match stdin p with
    | Some w =>
      withProcess st (Some {| stdin := Some (w ++ [data])%list; killed := killed p |})
    | None => st
    end
  | None => st
  end.

Definition sendKey (st : State) (key : Key) : State :=
  match stdinOf st with
  | None => st
  | Some _ =>
    if flagSet (ctrl key) && (name key =? "c") then write st ETX
    else if flagSet (ctrl key) && (name key =? "d") then write st EOT
    else if name key =? "return" then write st CR
    else if name key =? "backspace" then write st DEL
    else if name key =? "up" then write st (ESC ++ "[A")
    else if name key =? "down" then write st (ESC ++ "[B")
    else if name key =? "left" then write st (ESC ++ "[D")
    else if name key =? "right" then write st (ESC ++ "[C")
    else if name key =? "escape" then write st ESC
    else
      match sequence key with
      | Some (String _ _ as s) =>
        if negb (flagSet (ctrl key)) && negb (flagSet (meta key))
        then write st s else st
      | _ => st
      end
  end.

(** All bytes the child has been sent. *)
Definition written (st : State) : string :=
  match stdinOf st with
  | Some w => fold_right append "" w
  | None => ""
  end.

(** The precedence table as the specification words it; [None] is
    "no bytes at all". *)
Definition routingTable (key : Key) : option string :=
  if flagSet (ctrl key) && (name key =? "c") then Some ETX
  else if flagSet (ctrl key) && (name key =? "d") then Some EOT
  else if name key =? "return" then Some CR
  else if name key =? "backspace" then Some DEL
  else if name key =? "up" then Some (ESC ++ "[A")
  else if name key =? "down" then Some (ESC ++ "[B")
  else if name key =? "right" then Some (ESC ++ "[C")
  else if name key =? "left" then Some (ESC ++ "[D")
  else if name key =? "escape" then Some ESC
  else
    match sequence key with
    | Some raw =>
      if negb (flagSet (ctrl key)) && negb (flagSet (meta key))
      then Some raw else None
    | None => None
    end.

Definition bytesOf (o : option string) : string :=
  match o with Some b => b | None => "" end.

(** *** Update scheduler: [scheduleUpdate] (lines 286-334) *)

(** [setTimeout(callback, delay)] arms a timer due [delay] ms from now. *)
Definition setTimeout (st : State) (delay : Z) : nat * State :=
  (nextTimer st,
   withTimers st (timers st ++ [(nextTimer st, clock st + delay)])%list
              (S (nextTimer st))).

(** [clearTimeout(id)] disarms it. *)
Definition clearTimeout (st : State) (id : nat) : State :=
  withTimers st (filter (fun t => negb (Nat.eqb (fst t) id)) (timers st))
             (nextTimer st).

(** [updateDisplay] reads the terminal and sets the content once, through
    the styled extraction or through its plain-text fallback. *)
Definition updateDisplay (st : State) : State :=
  withDisplayed st (displayed st ++ [(clock st, term st)])%list.

(** The callback handed to [setTimeout]. *)
Definition timerCallback (st : State) : State :=
  updateDisplay (withPending st None).

Definition scheduleUpdate (st : State) : State :=
  let st1 := match pendingUpdate st with
             | Some id => clearTimeout st id
             | None => st
             end in
  let (id, st2) := setTimeout st1 16 in
  withPending st2 (Some id).

(** The runtime lets [ms] milliseconds pass: every armed timer that falls
    due is taken off the queue and its callback runs at its due time. *)
Definition isDue (target : Z) (t : nat * Z) : bool := (snd t <=? target)%Z.

Definition elapse (st : State) (ms : nat) : State :=
  let target := clock st + Z.of_nat ms in
  let due := filter (isDue target) (timers st) in
  let rest := filter (fun t => negb (isDue target t)) (timers st) in
  let st1 := fold_left (fun s t => timerCallback (withClock s (snd t)))
                       due (withTimers st rest (nextTimer st)) in
  withClock st1 target.

(** [proc.stdout.on("data")] and [proc.stderr.on("data")]:
    [term.write(data, scheduleUpdate)]. *)
Definition onData (st : State) (data : string) : State :=
  scheduleUpdate (withTerm st (term st ++ [data])%list).

(** [proc.on("exit")] *)
Definition onProcExit (st : State) : State :=
  {| processRef := None; term := term st; pendingUpdate := pendingUpdate st;
     displayed := displayed st; clock := clock st; timers := timers st;
     nextTimer := nextTimer st; exitCalls := S (exitCalls st) |}.

Inductive Event :=
| Data (data : string)
| Elapse (ms : nat)
| KeyPress (key : Key)
| ProcExit.

Definition step (st : State) (ev : Event) : State :=
  match ev with
  | Data d => onData st d
  | Elapse ms => elapse st ms
  | KeyPress k => sendKey st k
  | ProcExit => onProcExit st
  end.

Definition run (st : State) (evs : list Event) : State := fold_left step evs st.

(** The component right after its effect has spawned the helper. *)
Definition mounted : State :=
  {| processRef := Some {| stdin := Some []; killed := false |};
     term := []; pendingUpdate := None; displayed := []; clock := 0;
     timers := []; nextTimer := 1; exitCalls := 0 |}.

(** A burst: a first call, then further calls, each after a gap in ms. *)
Definition burst (first : string) (more : list (nat * string)) : list Event :=
  Data first :: flat_map (fun gd => [Elapse (fst gd); Data (snd gd)]) more.

Definition span (more : list (nat * string)) : Z :=
  (fold_right (fun gd acc => Z.of_nat (fst gd) + acc) 0 more)%Z.

(** The timer queue holds the timer [pendingUpdate] names and no other. *)
Definition armed (st : State) : Prop :=
  match pendingUpdate st with
  | Some id => exists due, timers st = [(id, due)]
  | None => timers st = []
  end.

(** A key event with a name only. *)
Definition plainKey (n : string) : Key :=
  {| name := n; sequence := None; ctrl := None; meta := None |}.

(** The names [sendKey] answers by name alone. *)
Definition namedKeys : list string :=
  ["return"; "backspace"; "up"; "down"; "left"; "right"; "escape"]%string.

(** The data chunks among some events. *)
Definition dataCount (evs : list Event) : nat :=
  List.length (filter (fun ev => match ev with Data _ => true | _ => false end)
                      evs).

(** The display is settled: it has never been set and nothing was written,
    or what it was last set from is the terminal as it is now. *)
Definition settled (st : State) : Prop :=
  (term st = [] /\ displayed st = [])
  \/ exists earlier t, displayed st = (earlier ++ [(t, term st)])%list.

End Terminal.

(* ================================================================== *)
(** ** The PTY supervisor (pty-helper.mjs) *)
(* ================================================================== *)

Module Supervisor.
Import Js.
Local Open Scope string_scope.
Local Open Scope Z_scope.

(** What the helper reads from its process when it is loaded:
    [process.argv.slice(2)], [process.cwd()] and [os.homedir()]. *)
Record Env := {
  args : list string;
  processCwd : string;
  homedir : string
}.

Definition cwd (env : Env) : string :=
  orElse (nth_error (args env) 0) (processCwd env).
Definition command (env : Env) : string :=
  orElse (nth_error (args env) 1) "zsh".
Definition cmdArgs (env : Env) : list string := skipn 2 (args env).

Definition resumeIndex (env : Env) : Z := indexOf (cmdArgs env) "--resume".
Definition sessionIdIndex (env : Env) : Z :=
  indexOf (cmdArgs env) "--session-id".

(** [undefined] (no element after the flag) and [null] (no flag) are both
    [None]: the code only tests the value and stores it in the marker. *)
Definition originalSessionId (env : Env) : option string :=
  if resumeIndex env >=? 0 then index (cmdArgs env) (resumeIndex env + 1)
  else if sessionIdIndex env >=? 0
       then index (cmdArgs env) (sessionIdIndex env + 1)
       else None.

Definition sessionUpdateDir (env : Env) : string :=
  homedir env ++ "/.multicode".
Definition sessionUpdateFile (env : Env) : string :=
  sessionUpdateDir env ++ "/session-update.json".

(** The child inside the pseudo-terminal. *)
Record Pty := {
  file : string;
  argv : list string;
  dir : string
}.

(** The module-level [let] variables. *)
Record State := {
  ptyProcess : option Pty;
  outputBuffer : string;
  startTime : Z;
  hasRetried : bool
}.

(** The object handed to [JSON.stringify] for the marker file. *)
Record Marker := {
  oldSessionId : option string;
  newSessionId : string;
  markerCwd : string;
  timestamp : Z
}.

(** What the supervisor does to the outside. *)
Inductive Effect :=
| Spawn (file : string) (argv : list string) (dir : string)
| StdoutWrite (data : string)
| WriteFile (path : string) (content : Marker)
| PtyWrite (data : string)
| PtyKill
| ProcessExit (code : Z).

(** How the two file-system calls inside the [try] turn out. *)
Inductive FsOutcome := MkdirThrows | WriteThrows | Written.

(** What the exit handler receives and reads from its environment, in the
    order it reads it: the exit code, the clock (line 59), the clock again
    (line 66), [randomUUID()], the file system, the clock (line 79). *)
Record ExitInfo := {
  exitCode : Z;
  now : Z;
  restartNow : Z;
  uuid : string;
  fs : FsOutcome;
  stampNow : Z
}.

Definition startPty (env : Env) (st : State) (cmdArgsToUse : list string)
    : State * list Effect :=
  ({| ptyProcess := Some {| file := command env; argv := cmdArgsToUse;
                            dir := cwd env |};
      outputBuffer := outputBuffer st;
      startTime := startTime st;
      hasRetried := hasRetried st |},
   [Spawn (command env) cmdArgsToUse (cwd env)]).

(** [ptyProcess.onData] (lines 43-54); [t] is [Date.now()]. *)
Definition onData (env : Env) (st : State) (t : Z) (data : string)
    : State * list Effect :=
  let elapsed := t - startTime st in
  if elapsed <? 2000 then
    let st1 := {| ptyProcess := ptyProcess st;
                  outputBuffer := outputBuffer st ++ data;
                  startTime := startTime st;
                  hasRetried := hasRetried st |} in
    if negb (hasRetried st) && truthy (originalSessionId env)
       && (resumeIndex env >=? 0)
    then (st1, [])
    else (st1, [StdoutWrite data])
  else (st, [StdoutWrite data]).

(** The [try { mkdirSync; writeFileSync } catch {}] of lines 73-83. *)
Definition persist (env : Env) (outcome : FsOutcome) (m : Marker)
    : list Effect :=
  match outcome with
  | MkdirThrows => []
  | WriteThrows => []
  | Written => [WriteFile (sessionUpdateFile env) m]
  end.

Definition signatureFound (buffer : string) : bool :=
  includes buffer "No conversation found"
  || (includes buffer "Session ID" && includes buffer "not found").

(** [ptyProcess.onExit] (lines 57-95). *)
Definition onExit (env : Env) (st : State) (x : ExitInfo)
    : State * list Effect :=
  let elapsed := now x - startTime st in
  if negb (exitCode x =? 0) && (elapsed <? 2000) && negb (hasRetried st)
     && truthy (originalSessionId env)
  then
    if signatureFound (outputBuffer st)
    then
      let st1 := {| ptyProcess := ptyProcess st;
                    outputBuffer := "";
                    startTime := restartNow x;
                    hasRetried := true |} in
      let newSessionId := uuid x in
      let written :=
        persist env (fs x)
          {| oldSessionId := originalSessionId env;
             newSessionId := newSessionId;
             markerCwd := cwd env;
             timestamp := stampNow x |} in
      let newArgs := ["--session-id"; newSessionId] in
      let (st2, spawned) := startPty env st1 newArgs in
      (st2, written ++ spawned)%list
    else (st, [ProcessExit (exitCode x)])
  else (st, [ProcessExit (exitCode x)]).

(** [process.stdin.on('data')] (lines 103-107). *)
Definition onStdin (st : State) (data : string) : State * list Effect :=
  match ptyProcess st with
  | Some _ => (st, [PtyWrite data])
  | None => (st, [])
  end.

(** The SIGTERM and SIGINT handlers (lines 110-118). *)
Definition onSignal (st : State) : State * list Effect :=
  match ptyProcess st with
  | Some _ => (st, [PtyKill; ProcessExit 0])
  | None => (st, [ProcessExit 0])
  end.

Inductive Event :=
| PtyData (t : Z) (data : string)
| PtyExit (x : ExitInfo)
| StdinData (data : string)
| Signal.

Definition step (env : Env) (st : State) (ev : Event) : State * list Effect :=
  match ev with
  | PtyData t data => onData env st t data
  | PtyExit x => onExit env st x
  | StdinData data => onStdin st data
  | Signal => onSignal st
  end.

Definition isProcessExit (e : Effect) : bool :=
  match e with ProcessExit _ => true | _ => false end.

(** The handlers run one event after another until one of them ends the
    supervisor with [process.exit]. *)
Fixpoint run (env : Env) (st : State) (evs : list Event)
    : State * list Effect :=
  match evs with
  | [] => (st, [])
  | ev :: rest =>
    let (st1, out) := step env st ev in
    if existsb isProcessExit out then (st1, out)
    else let (st2, out2) := run env st1 rest in (st2, (out ++ out2)%list)
  end.

(** Loading the module at time [t0] (lines 24-27) and the first
    [startPty(cmdArgs, originalSessionId)] (line 99). *)
Definition boot (env : Env) (t0 : Z) : State * list Effect :=
  startPty env
    {| ptyProcess := None; outputBuffer := ""; startTime := t0;
       hasRetried := false |}
    (cmdArgs env).

(** Everything a supervisor started at [t0] does over the events [evs]. *)
Definition session (env : Env) (t0 : Z) (evs : list Event)
    : State * list Effect :=
  let (st, out) := boot env t0 in
  let (st1, out1) := run env st evs in
  (st1, (out ++ out1)%list).

Definition isSpawn (e : Effect) : bool :=
  match e with Spawn _ _ _ => true | _ => false end.
Definition isWriteFile (e : Effect) : bool :=
  match e with WriteFile _ _ => true | _ => false end.

Definition count (p : Effect -> bool) (out : list Effect) : nat :=
  List.length (filter p out).

(** The bytes that reached the caller, in order. *)
Fixpoint forwarded (out : list Effect) : string :=
  match out with
  | [] => ""
  | StdoutWrite data :: rest => data ++ forwarded rest
  | _ :: rest => forwarded rest
  end.

(** The marker the fallback writes at exit [x]. *)
Definition markerOf (env : Env) (x : ExitInfo) : Marker :=
  {| oldSessionId := originalSessionId env;
     newSessionId := uuid x;
     markerCwd := cwd env;
     timestamp := stampNow x |}.

(** The state the fallback leaves behind at exit [x]. *)
Definition restarted (env : Env) (x : ExitInfo) : State :=
  {| ptyProcess := Some {| file := command env;
                           argv := ["--session-id"; uuid x];
                           dir := cwd env |};
     outputBuffer := "";
     startTime := restartNow x;
     hasRetried := true |}.

(** The failure signature as the specification words it. *)
Definition signature (buffer : string) : Prop :=
  includes buffer "No conversation found" = true
  \/ (includes buffer "Session ID" = true
      /\ includes buffer "not found" = true).

(** A session asked to resume a conversation it names. *)
Definition resumeMode (env : Env) : Prop :=
  resumeIndex env >= 0 /\ truthy (originalSessionId env) = true.

(** A resume session with an unrelated flag, and a failed resume in it. *)
Definition resumeEnv : Env :=
  {| args := ["/work"; "claude"; "--resume"; "old-id"; "--verbose"];
     processCwd := "/"; homedir := "/home/u" |}.

Definition failedResume : State :=
  {| ptyProcess := Some {| file := "claude";
                           argv := ["--resume"; "old-id"; "--verbose"];
                           dir := "/work" |};
     outputBuffer := "No conversation found with session ID: old-id";
     startTime := 0; hasRetried := false |}.

Definition quickFailure : ExitInfo :=
  {| exitCode := 1; now := 500; restartNow := 501; uuid := "new-id";
     fs := Written; stampNow := 502 |}.

(** Output events only: arrival time and chunk. *)
Definition dataEvents (ds : list (Z * string)) : list Event :=
  map (fun d => PtyData (fst d) (snd d)) ds.

Definition emitted (ds : list (Z * string)) : string :=
  fold_right (fun d acc => snd d ++ acc) "" ds.

(** The chunk arrives less than 2000 ms after [start]. *)
Definition inWindow (start : Z) (d : Z * string) : bool :=
  fst d - start <? 2000.

(** The restart budget left: one until the fallback has run. *)
Definition budget (st : State) : nat := if hasRetried st then 0%nat else 1%nat.

(** Release of the held-back output, as the specification words it: once a
    chunk arrives after the window, the caller has received every chunk
    the child emitted, in the order emitted. *)
Definition releasesBuffered (env : Env) (t0 : Z) (ds : list (Z * string))
    : Prop :=
  existsb (fun d => negb (inWindow t0 d)) ds = true ->
  signatureFound (emitted (filter (inWindow t0) ds)) = false ->
  forwarded (snd (session env t0 (dataEvents ds))) = emitted ds.

(** What was typed: the chunks read from stdin, in order. *)
Fixpoint typed (evs : list Event) : list string :=
  match evs with
  | [] => []
  | StdinData data :: rest => data :: typed rest
  | _ :: rest => typed rest
  end.

(** What the children were sent: the chunks written to the pty, in order. *)
Fixpoint ptyWrites (out : list Effect) : list string :=
  match out with
  | [] => []
  | PtyWrite data :: rest => data :: ptyWrites rest
  | _ :: rest => ptyWrites rest
  end.

(** Every chunk of [ds] arrives inside the window that starts at [start]. *)
Definition allInWindow (start : Z) (ds : list (Z * string)) : Prop :=
  Forall (fun d => inWindow start d = true) ds.

(** A session that names a new conversation: [--session-id], no [--resume]. *)
Definition newSessionEnv : Env :=
  {| args := ["/work"; "claude"; "--session-id"; "own-id"];
     processCwd := "/"; homedir := "/home/u" |}.

(** A plain shell session: no arguments after the command. *)
Definition shellEnv : Env :=
  {| args := ["/work"; "zsh"]; processCwd := "/"; homedir := "/home/u" |}.

End Supervisor.

(* ================================================================== *)
(** ** The dashboard side of a session (the route that mounts Terminal) *)
(* ================================================================== *)

Module Dashboard.
Import Js.
Local Open Scope string_scope.
Local Open Scope Z_scope.

Record Worktree := {
  wtId : string;
  wtPath : string;
  branch : string;
  isMain : bool
}.

(** A tab (TabBar.tsx, lines 5-14); the fields marked [?] are optional. *)
Record Tab := {
  id : string;
  name : string;
  path : string;
  isTerminalOpen : option bool;
  worktrees : list Worktree;
  activeWorktreeId : string;
  sessionId : option string;
  isNewSession : option bool
}.

Definition isSet (b : option bool) : bool :=
  match b with Some true => true | _ => false end.

(** [prev.map((tab, i) => (i === index ? f(tab) : tab))] *)
Fixpoint mapAt {A : Type} (f : A -> A) (index : nat) (l : list A) : list A :=
  match l, index with
  | [], _ => []
  | x :: rest, O => f x :: rest
  | x :: rest, S i => x :: mapAt f i rest
  end.

(** [updateTab(index, updates)]: the object [updates] is spread over the
    tab at [index]; here it is the function that overwrites its fields. *)
Definition updateTab (tabs : list Tab) (index : nat) (updates : Tab -> Tab)
    : list Tab :=
  mapAt updates index tabs.

(** [{ isTerminalOpen: true, sessionId, isNewSession }] *)
Definition opened (sid : string) (isNew : bool) (tab : Tab) : Tab :=
  {| id := id tab; name := name tab; path := path tab;
     isTerminalOpen := Some true;
     worktrees := worktrees tab; activeWorktreeId := activeWorktreeId tab;
     sessionId := Some sid; isNewSession := Some isNew |}.

(** [{ isTerminalOpen: false, isNewSession: false }] *)
Definition closed (tab : Tab) : Tab :=
  {| id := id tab; name := name tab; path := path tab;
     isTerminalOpen := Some false;
     worktrees := worktrees tab; activeWorktreeId := activeWorktreeId tab;
     sessionId := sessionId tab; isNewSession := Some false |}.

(** [{ isTerminalOpen: false, isNewSession: false, sessionId: newId }] *)
Definition adopted (newId : string) (tab : Tab) : Tab :=
  {| id := id tab; name := name tab; path := path tab;
     isTerminalOpen := Some false;
     worktrees := worktrees tab; activeWorktreeId := activeWorktreeId tab;
     sessionId := Some newId; isNewSession := Some false |}.

(** [openClaudeCode]; [randomUUID] is what [crypto.randomUUID()] gives if
    it is called. The toast and the focus change are left out. *)
Definition openClaudeCode (tabs : list Tab) (activeTabIndex : nat)
    (randomUUID : string) : list Tab :=
  match nth_error tabs activeTabIndex with
  | None => tabs
  | Some currentTab =>
    if negb (truthy (Some (path currentTab))) then tabs
    else
      let isNewSession := negb (truthy (sessionId currentTab)) in
      let sessionId := orElse (sessionId currentTab) randomUUID in
      updateTab tabs activeTabIndex (opened sessionId isNewSession)
  end.

(** The props the route hands to [Terminal]. *)
Definition terminalCwd (tab : Tab) : string :=
  orElse (option_map wtPath
            (find (fun wt => String.eqb (wtId wt) (activeWorktreeId tab))
                  (worktrees tab)))
         (path tab).

Definition terminalCommand (claudePath : option string) : string :=
  orElse claudePath "claude".

Definition terminalArgs (tab : Tab) : list string :=
  match sessionId tab with
  | Some (String _ _ as sid) =>
    [if isSet (isNewSession tab) then "--session-id" else "--resume"; sid]
  | _ => []
  end.

(** What the helper finds in [process.argv.slice(2)] when [Terminal]
    spawns it with [[helperPath, cwd, command, ...args]]. *)
Definition helperArgs (cwd command : string) (args : list string)
    : list string :=
  cwd :: command :: args.

Definition helperEnv (tab : Tab) (claudePath : option string)
    (processCwd homedir : string) : Supervisor.Env :=
  {| Supervisor.args :=
       helperArgs (terminalCwd tab) (terminalCommand claudePath)
                  (terminalArgs tab);
     Supervisor.processCwd := processCwd;
     Supervisor.homedir := homedir |}.

(** [join(homedir(), ".multicode", "session-update.json")] *)
Definition sessionUpdatePath (homedir : string) : string :=
  homedir ++ "/.multicode/session-update.json".

(** The marker file as the exit callback finds it: missing, not readable
    as a marker (reading or parsing throws), or holding a marker the
    helper wrote. *)
Inductive MarkerFile :=
| Absent
| Unreadable
| Holds (update : Supervisor.Marker).

(** The [onExit] callback of a tab's terminal; [tab] is the tab the
    callback was created for, [tabs] the tabs at the time it runs. It
    returns the tabs and the marker file afterwards; [unlinkOk] tells
    whether [unlinkSync] succeeds. Toast, focus and the table of terminal
    handles are left out. *)
Definition onTerminalExit (tabs : list Tab) (index : nat) (tab : Tab)
    (file : MarkerFile) (now : Z) (unlinkOk : bool)
    : list Tab * MarkerFile :=
  match file with
  | Holds update =>
    if Compositor.opt_string_eqb (Supervisor.oldSessionId update)
                                 (sessionId tab)
       && (now - Supervisor.timestamp update <? 30000)
    then (updateTab tabs index (adopted (Supervisor.newSessionId update)),
          if unlinkOk then Absent else file)
    else (updateTab tabs index closed, file)
  | _ => (updateTab tabs index closed, file)
  end.

Inductive FocusArea := projectTabs | worktreeTabs | tree | terminal.

(** A key event as the keyboard hook delivers it. *)
Record KeyEvent := {
  keyName : string;
  keySequence : option string;
  keyCtrl : bool;
  keyMeta : bool;
  keyShift : bool
}.

(** The key as it is handed on to [sendKey]. *)
Definition toTerminalKey (key : KeyEvent) : Terminal.Key :=
  {| Terminal.name := keyName key;
     Terminal.sequence := keySequence key;
     Terminal.ctrl := Some (keyCtrl key);
     Terminal.meta := Some (keyMeta key) |}.

(** Where the keyboard handler of the route sends a key, down to the
    point where it hands keys to the terminal; [Hotkeys] stands for the
    rest of the handler. *)
Inductive Disposition :=
| Quit
| Setup
| RepoFinder
| CycleFocus
| ToTerminal
| Hotkeys.

Definition dispatch (key : KeyEvent) (focusArea : FocusArea)
    (isTerminalOpen hasActiveTab isDialogOpen isOnHomeRoute : bool)
    : Disposition :=
  if keyCtrl key && String.eqb (keyName key) "q" then Quit
  else if keyCtrl key && String.eqb (keyName key) "s" then Setup
  else if keyCtrl key && String.eqb (keyName key) "o" then RepoFinder
  else if String.eqb (keyName key) "tab" && negb (keyShift key)
          && negb isDialogOpen && isOnHomeRoute
  then CycleFocus
  else if match focusArea with terminal => true | _ => false end
          && isTerminalOpen && hasActiveTab && isOnHomeRoute
  then ToTerminal
  else Hotkeys.

(** What the child receives for a key, through the handler and the
    terminal of the active tab. *)
Definition keyToChild (st : Terminal.State) (key : KeyEvent)
    (focusArea : FocusArea)
    (isTerminalOpen hasActiveTab isDialogOpen isOnHomeRoute : bool)
    : Terminal.State :=
  match dispatch key focusArea isTerminalOpen hasActiveTab isDialogOpen
                 isOnHomeRoute with
  | ToTerminal => Terminal.sendKey st (toTerminalKey key)
  | _ => st
  end.

(** A tab that has never had a session. *)
Definition freshTab : Tab :=
  {| id := "t1"; name := "repo"; path := "/work";
     isTerminalOpen := None; worktrees := []; activeWorktreeId := "main";
     sessionId := None; isNewSession := None |}.

(** A tab restored with the session id it had. *)
Definition restoredTab : Tab :=
  {| id := "t1"; name := "repo"; path := "/work";
     isTerminalOpen := None; worktrees := []; activeWorktreeId := "main";
     sessionId := Some "old-id"; isNewSession := None |}.

End Dashboard.

(* ================================================================== *)
(** ** The process tracker (ClaudeProcessTrackerService) *)
(* ================================================================== *)

Module Tracker.
Import Compositor.

Record ClaudeProcess := {
  pid : Z;
  cwd : jsstring
}.

(** A [Map<string, ClaudeProcess[]>]: its entries in insertion order, no
    key twice. *)
Definition ProcessMap := list (jsstring * list ClaudeProcess).

Definition keys (m : ProcessMap) : list jsstring := map fst m.

(** [m.get(key)] *)
Fixpoint get (m : ProcessMap) (key : jsstring) : option (list ClaudeProcess) :=
  match m with
  | [] => None
  | (k, v) :: rest => if jseqb k key then Some v else get rest key
  end.

(** [m.set(key, value)]: an existing key keeps its place. *)
Fixpoint set (m : ProcessMap) (key : jsstring) (value : list ClaudeProcess)
    : ProcessMap :=
  match m with
  | [] => [(key, value)]
  | (k, v) :: rest =>
    if jseqb k key then (k, value) :: rest else (k, v) :: set rest key value
  end.





(** [new Set(value.map(p => p.pid))], as the pids it holds. *)
Definition pids (value : list ClaudeProcess) : list Z := map pid value.

Definition mapsEqual (a b : ProcessMap) : bool :=
  if negb (List.length a =? List.length b)%nat then false
  else
    forallb
      (fun kv =>
         match get b (fst kv) with
         | None => false
         | Some other =>
           if negb (List.length (snd kv) =? List.length other)%nat then false
           else forallb (fun p => existsb (Z.eqb p) (pids other))
                        (pids (snd kv))
         end)
      a.

(** [getProcessCwd(pid)]: [lsof] gives the output of the command for a
    pid, or nothing when running it throws. *)
Definition getProcessCwd (lsof : Z -> option jsstring) (pid : Z)
    : option jsstring :=
  match lsof pid with
  | Some result =>
    let cwd := trim result in
    if nonempty cwd then Some cwd else None
  | None => None
  end.

(** One iteration of the loop of [poll] over the pids. *)
Definition addPid (lsof : Z -> option jsstring) (newProcesses : ProcessMap)
    (pid : Z) : ProcessMap :=
  match getProcessCwd lsof pid with
  | Some ((_ :: _) as cwd) =>
    let existing := match get newProcesses cwd with
                    | Some procs => procs
                    | None => []
                    end in
    set newProcesses cwd (existing ++ [{| pid := pid; cwd := cwd |}])
  | _ => newProcesses
  end.

Definition collect (lsof : Z -> option jsstring) (pidList : list Z)
    : ProcessMap :=
  fold_left (addPid lsof) pidList [].

(** [poll], given the pids found: the map afterwards and whether the
    listeners were notified. *)
Definition poll (processes : ProcessMap) (lsof : Z -> option jsstring)
    (pidList : list Z) : ProcessMap * bool :=
  let newProcesses := collect lsof pidList in
  if negb (mapsEqual processes newProcesses) then (newProcesses, true)
  else (processes, false).

(** The processes of [pidList] that [lsof] places in [dir], in order. *)
Definition inDirectory (lsof : Z -> option jsstring) (dir : jsstring)
    (pidList : list Z) : list ClaudeProcess :=
  map (fun p => {| pid := p; cwd := dir |})
      (filter (fun p => match getProcessCwd lsof p with
                        | Some c => jseqb c dir
                        | None => false
                        end) pidList).

(** A stored list with further processes appended; a missing list starts
    with the first of them. *)
Definition extend (o : option (list ClaudeProcess)) (l : list ClaudeProcess)
    : option (list ClaudeProcess) :=
  match o, l with
  | Some v, _ => Some (v ++ l)
  | None, [] => None
  | None, _ :: _ => Some l
  end.

(** Three processes, two in [/work] and one in [/work/wt]. *)
Definition sampleLsof (p : Z) : option jsstring :=
  if p =? 10 then Some (units "/work")
  else if p =? 11 then Some (units " /work/wt ")
  else if p =? 12 then Some (units "/work")
  else None.

End Tracker.

(* ================================================================== *)
(** ** Numbers in text: [parseInt], [String(n)], [split] *)
(* ================================================================== *)

Module JsNumber.
Import Compositor.
Local Open Scope N_scope.

Definition isDigit (u : N) : bool := (48 <=? u) && (u <=? 57).

Definition isHexDigit (u : N) : bool :=
  isDigit u || ((65 <=? u) && (u <=? 70)) || ((97 <=? u) && (u <=? 102)).

Definition hexValue (u : N) : N :=
  if isDigit u then u - 48
  else if (65 <=? u) && (u <=? 70) then u - 55
  else u - 87.

(** The longest prefix of digits of the radix. *)
Fixpoint takeWhile (p : N -> bool) (s : jsstring) : jsstring :=
  match s with
  | [] => []
  | u :: rest => if p u then u :: takeWhile p rest else []
  end.

(** The number a sequence of digits writes in radix [r]. *)
Definition digitsValue (r : N) (value : N -> N) (ds : jsstring) : N :=
  fold_left (fun acc d => r * acc + value d) ds 0.

(** [parseInt(s, radix)] for [radix] 10 or absent ([hexAllowed] tells
    which: without a radix a [0x] prefix selects radix 16). [None] is
    NaN. The result is exact; the code only meets numbers far below 2^53,
    where a JavaScript number is exact as well. *)
Definition parseInt (hexAllowed : bool) (s : jsstring) : option Z :=
  let s1 := trimStart s in
  let negative := match s1 with u :: _ => u =? 45 | [] => false end in
  let s2 := match s1 with
            | u :: rest => if (u =? 45) || (u =? 43) then rest else s1
            | [] => s1
            end in
  let hex := hexAllowed
             && match s2 with
                | z :: x :: _ => (z =? 48) && ((x =? 120) || (x =? 88))
                | _ => false
                end in
  let ds := if hex then takeWhile isHexDigit (skipn 2 s2)
            else takeWhile isDigit s2 in
  match ds with
  | [] => None
  | _ :: _ =>
    let n := if hex then digitsValue 16 hexValue ds
             else digitsValue 10 (fun d => d - 48) ds in
    Some (if negative then (- Z.of_N n)%Z else Z.of_N n)
  end.

(** [String(n)] for a natural number below 10^21: its decimal digits. *)
Fixpoint decimalFuel (fuel : nat) (n : N) : jsstring :=
  match fuel with
  | O => []
  | S fuel' =>
    if n <? 10 then [48 + n]
    else decimalFuel fuel' (n / 10) ++ [48 + n mod 10]
  end.

Definition decimal (n : N) : jsstring := decimalFuel (S (N.size_nat n)) n.

(** [s.split("\n")] *)
Fixpoint splitLines (s : jsstring) : list jsstring :=
  match s with
  | [] => [[]]
  | u :: rest =>
    if u =? 10 then [] :: splitLines rest
    else match splitLines rest with
         | line :: lines => (u :: line) :: lines
         | [] => [[u]]
         end
  end.

(** [xs.map(f).filter(x => !isNaN(x))] *)
Fixpoint numbers (xs : list (option Z)) : list Z :=
  match xs with
  | [] => []
  | Some n :: rest => n :: numbers rest
  | None :: rest => numbers rest
  end.

(** [getClaudePids] of the process tracker; [execSync] is the output of
    the [pgrep] command, or nothing when running it throws. *)
Definition getClaudePids (execSync : option jsstring) : list Z :=
  match execSync with
  | None => []
  | Some result =>
    numbers
      (map (fun line => parseInt false (trim line))
           (filter (fun line => nonempty (trim line))
                   (splitLines (trim result))))
  end.

(** What [pgrep] prints for a list of pids: one per line. *)
Definition pgrepOutput (pidList : list N) : jsstring :=
  flat_map (fun p => decimal p ++ [10]) pidList.

(** The component's dimension from its optional prop (default 90 or 20),
    the text it puts in the helper's environment, and the dimension the
    helper reads back: [parseInt(process.env.TERM_COLS) || 90]. *)
Definition propOr (prop : option N) (default : N) : N :=
  match prop with Some n => n | None => default end.

Definition envText (dimension : N) : jsstring := decimal dimension.

Definition helperDimension (envValue : option jsstring) (default : Z) : Z :=
  match envValue with
  | None => default
  | Some text =>
    match parseInt true text with
    | Some n => if (n =? 0)%Z then default else n
    | None => default
    end
  end.

End JsNumber.

(* ================================================================== *)
(** * Properties *)
(* ================================================================== *)

(** ** Colour resolver *)

Section ColorFacts.
Import Js Color.

Example resolve_p16_3 :
  xtermColorToRGBA 3 CM_P16 = Some (fromInts 187 187 0).
Proof. reflexivity. Qed.

Example resolve_p256_cube :
  xtermColorToRGBA 196 CM_P256 = Some (fromInts 255 0 0).
Proof. reflexivity. Qed.

Example resolve_p256_gray :
  xtermColorToRGBA 232 CM_P256 = Some (fromInts 8 8 8).
Proof. reflexivity. Qed.

Example resolve_rgb :
  xtermColorToRGBA 0x12ab34 CM_RGB = Some (fromInts 0x12 0xab 0x34).
Proof. reflexivity. Qed.

Example resolve_unknown_mode : xtermColorToRGBA 5 7 = None.
Proof. reflexivity. Qed.

Lemma land_shiftl_small (a b k : Z) :
  0 <= k -> 0 <= b < 2 ^ k -> Z.land (Z.shiftl a k) b = 0.
Proof.
  intros Hk Hb. apply Z.bits_inj'. intros n Hn.
  rewrite Z.land_spec, Z.bits_0.
  destruct (Z.ltb_spec n k) as [Hlt | Hge].
  - rewrite Z.shiftl_spec_low by assumption. reflexivity.
  - assert (Z.testbit b n = false) as ->; [| apply andb_false_r].
    destruct (Z.eq_dec b 0) as [-> | Hnz]; [apply Z.bits_0 |].
    apply Z.bits_above_log2; [lia |].
    apply Z.log2_lt_pow2; [lia |].
    apply Z.lt_le_trans with (2 ^ k); [lia |].
    apply Z.pow_le_mono_r; lia.
Qed.

Lemma lor_shiftl_add (a b k : Z) :
  0 <= k -> 0 <= b < 2 ^ k -> Z.lor (Z.shiftl a k) b = a * 2 ^ k + b.
Proof.
  intros Hk Hb.
  rewrite <- Z.lxor_lor by (apply land_shiftl_small; assumption).
  rewrite <- Z.add_nocarry_lxor by (apply land_shiftl_small; assumption).
  rewrite Z.shiftl_mul_pow2 by assumption. reflexivity.
Qed.

(** The packed value is the base-256 number with digits r, g, b. *)
Lemma pack_sum (r g b : Z) :
  0 <= g <= 255 -> 0 <= b <= 255 ->
  pack r g b = r * 65536 + g * 256 + b.
Proof.
  intros Hg Hb. unfold pack.
  rewrite <- Z.lor_assoc.
  rewrite (lor_shiftl_add g b 8) by lia.
  rewrite (lor_shiftl_add r (g * 2 ^ 8 + b) 16) by lia.
  change (2 ^ 16) with 65536. change (2 ^ 8) with 256. lia.
Qed.

Lemma toInt32_small (n : Z) : 0 <= n < 2 ^ 31 -> toInt32 n = n.
Proof.
  intros H. unfold toInt32.
  rewrite Z.mod_small; lia.
Qed.

Lemma band_byte (n : Z) : 0 <= n <= 255 -> band n 0xff = n.
Proof.
  intros H. unfold band.
  rewrite !toInt32_small by lia.
  change 255 with (Z.ones 8). rewrite Z.land_ones by lia.
  apply Z.mod_small. change (2 ^ 8) with 256. lia.
Qed.

Lemma band_low_byte (hi lo : Z) :
  0 <= hi < 2 ^ 16 -> 0 <= lo <= 255 -> band (hi * 256 + lo) 0xff = lo.
Proof.
  intros Hhi Hlo. unfold band.
  rewrite !toInt32_small by lia.
  change 255 with (Z.ones 8). rewrite Z.land_ones by lia.
  change (2 ^ 8) with 256.
  rewrite Z.add_comm, Z.mod_add by lia.
  apply Z.mod_small. lia.
Qed.

Lemma sar_high (hi lo k : Z) :
  0 <= k -> 0 <= lo < 2 ^ k -> 0 <= hi -> hi * 2 ^ k + lo < 2 ^ 31 ->
  sar (hi * 2 ^ k + lo) k = hi.
Proof.
  intros Hk Hlo Hhi Hbound. unfold sar.
  rewrite toInt32_small by nia.
  rewrite Z.shiftr_div_pow2 by assumption.
  rewrite Z.add_comm, Z.div_add by lia.
  rewrite Z.div_small by lia. reflexivity.
Qed.

(** C9: packing an RGB triple with channels in 0..255 as
    [(r << 16) | (g << 8) | b] and resolving it under the true-colour mode
    gives back exactly that triple. *)
Theorem truecolor_roundtrip (r g b : Z) :
  0 <= r <= 255 -> 0 <= g <= 255 -> 0 <= b <= 255 ->
  xtermColorToRGBA (pack r g b) CM_RGB = Some (fromInts r g b).
Proof.
  intros Hr Hg Hb.
  rewrite pack_sum by assumption.
  unfold xtermColorToRGBA. cbn [Z.eqb CM_RGB CM_DEFAULT CM_P16 CM_P256].
  simpl (_ =? _).
  f_equal.
  replace (sar (r * 65536 + g * 256 + b) 16) with r.
  2:{ symmetry. replace (r * 65536 + g * 256 + b)
        with (r * 2 ^ 16 + (g * 256 + b)) by (change (2 ^ 16) with 65536; lia).
      apply sar_high; change (2 ^ 16) with 65536; lia. }
  replace (sar (r * 65536 + g * 256 + b) 8) with (r * 256 + g).
  2:{ symmetry. replace (r * 65536 + g * 256 + b)
        with ((r * 256 + g) * 2 ^ 8 + b) by (change (2 ^ 8) with 256; lia).
      apply sar_high; change (2 ^ 8) with 256; lia. }
  rewrite (band_byte r) by assumption.
  rewrite (band_low_byte r g) by (change (2 ^ 16) with 65536; lia).
  replace (r * 65536 + g * 256 + b) with ((r * 256 + g) * 256 + b) by lia.
  rewrite (band_low_byte (r * 256 + g) b) by (change (2 ^ 16) with 65536; lia).
  reflexivity.
Qed.

Lemma truecolor_roundtrip_witness :
  xtermColorToRGBA (pack 18 171 52) CM_RGB = Some (fromInts 18 171 52).
Proof. apply truecolor_roundtrip; lia. Defined.

Lemma index_out_of_range {A : Type} (arr : list A) (i : Z) :
  i < 0 \/ Z.of_nat (List.length arr) <= i -> index arr i = None.
Proof.
  intros H. unfold index.
  destruct (Z.ltb_spec i 0) as [Hneg | Hpos]; [reflexivity |].
  apply nth_error_None. lia.
Qed.

(** C10: an index outside 0..15 under the 16-colour mode, and a negative
    index under the 256-colour mode, resolve to no colour; and every
    integer index in every mode resolves to no colour or to one RGB value. *)
Theorem resolve_outside_palette :
  (forall color, color < 0 \/ 15 < color ->
     xtermColorToRGBA color CM_P16 = None) /\
  (forall color, color < 0 -> xtermColorToRGBA color CM_P256 = None) /\
  (forall color mode,
     xtermColorToRGBA color mode = None \/
     exists rgb, xtermColorToRGBA color mode = Some rgb).
Proof.
  split; [| split].
  - intros color H. unfold xtermColorToRGBA. simpl (_ =? _).
    apply index_out_of_range. simpl. lia.
  - intros color H. unfold xtermColorToRGBA. simpl (_ =? _).
    destruct (Z.ltb_spec color 16) as [_ | Hge]; [| lia].
    apply index_out_of_range. lia.
  - intros color mode.
    destruct (xtermColorToRGBA color mode) as [rgb |];
      [right; exists rgb; reflexivity | left; reflexivity].
Qed.

Lemma resolve_outside_palette_witness :
  xtermColorToRGBA 16 CM_P16 = None /\ xtermColorToRGBA (-1) CM_P256 = None.
Proof.
  split.
  - apply (proj1 resolve_outside_palette). right. lia.
  - apply (proj1 (proj2 resolve_outside_palette)). lia.
Defined.

End ColorFacts.

(** ** Input router *)

Section RouterFacts.
Import Terminal.
Local Open Scope string_scope.

Lemma append_nil_r (s : string) : s ++ "" = s.
Proof. induction s as [| c s IH]; simpl; [reflexivity | now rewrite IH]. Qed.

Lemma append_assoc (a b c : string) : (a ++ b) ++ c = a ++ b ++ c.
Proof. induction a as [| x a IH]; simpl; [reflexivity | now rewrite IH]. Qed.

Lemma joined_snoc (w : list string) (d : string) :
  fold_right append "" (w ++ [d])%list = fold_right append "" w ++ d.
Proof.
  induction w as [| x w IH]; simpl.
  - apply append_nil_r.
  - rewrite IH. symmetry. apply append_assoc.
Qed.

Lemma written_write (st : State) (w : list string) (d : string) :
  stdinOf st = Some w -> written (write st d) = written st ++ d.
Proof.
  unfold written, write, stdinOf.
  destruct (processRef st) as [p |]; [| discriminate].
  intros H. rewrite H. simpl. apply joined_snoc.
Qed.

Ltac name_clash :=
  match goal with
  | H1 : (?n =? ?a) = true, H2 : (?n =? ?b) = true |- _ =>
    apply String.eqb_eq in H1; apply String.eqb_eq in H2;
    rewrite H1 in H2; discriminate H2
  end.

(** C5: with a live child, the bytes [sendKey] writes for a key event are
    exactly those of the precedence table: Ctrl+C, Ctrl+D, Return,
    Backspace, the four arrows, Escape, then the raw sequence when neither
    ctrl nor meta is held, and otherwise nothing. *)
Theorem sendKey_follows_table (st : State) (key : Key) (w : list string) :
  stdinOf st = Some w ->
  written (sendKey st key) = written st ++ bytesOf (routingTable key).
Proof.
  intros Hw. unfold sendKey, routingTable. rewrite Hw.
  repeat match goal with
         | |- context [if ?c then _ else _] => destruct c eqn:?
         end;
    try name_clash;
    try (simpl bytesOf; apply (written_write _ _ _ Hw));
    try (simpl bytesOf; symmetry; apply append_nil_r).
  destruct (sequence key) as [[| ? ?] |]; simpl bytesOf;
    try (symmetry; apply append_nil_r).
  apply (written_write _ _ _ Hw).
Qed.

Lemma sendKey_follows_table_witness :
  written (sendKey mounted (plainKey "up")) = ESC ++ "[A".
Proof.
  apply (sendKey_follows_table mounted (plainKey "up") []). reflexivity.
Defined.

Example route_ctrl_c :
  routingTable {| name := "c"; sequence := Some ETX; ctrl := Some true;
                  meta := None |} = Some ETX
  /\ written (sendKey mounted {| name := "c"; sequence := Some ETX;
                                 ctrl := Some true; meta := None |}) = ETX.
Proof. split; reflexivity. Qed.

Example route_raw :
  written (sendKey mounted {| name := ""; sequence := Some "a";
                              ctrl := Some false; meta := Some false |}) = "a".
Proof. reflexivity. Qed.

Example route_ctrl_a :
  sendKey mounted {| name := "a"; sequence := None; ctrl := Some true;
                     meta := None |} = mounted.
Proof. reflexivity. Qed.

Example route_ctrl_a_with_sequence :
  sendKey mounted {| name := "a"; sequence := Some (String "001"%char "");
                     ctrl := Some true; meta := None |} = mounted.
Proof. reflexivity. Qed.

Lemma sendKey_dead (st : State) (key : Key) :
  processRef st = None -> sendKey st key = st.
Proof. intros H. unfold sendKey, stdinOf. rewrite H. reflexivity. Qed.

Lemma sendKey_shape (st : State) (key : Key) :
  sendKey st key = st \/ exists p, sendKey st key = withProcess st p.
Proof.
  assert (Hwrite : forall d,
            write st d = st \/ exists p, write st d = withProcess st p).
  { intros d. unfold write.
    destruct (processRef st) as [p |]; [| now left].
    destruct (stdin p); [right; eexists; reflexivity | now left]. }
  unfold sendKey. destruct (stdinOf st); [| now left].
  repeat match goal with
         | |- context [if ?c then _ else _] => destruct c
         end; try apply Hwrite.
  all: try (now left).
  all: destruct (sequence key) as [[| ? ?] |]; try (now left); apply Hwrite.
Qed.

End RouterFacts.

(** ** Writes after the child has gone, and the update scheduler *)

Section SchedulerFacts.
Import Terminal.

Lemma fire_processRef (due : list (nat * Z)) (st : State) :
  processRef (fold_left (fun s t => timerCallback (withClock s (snd t))) due st)
  = processRef st.
Proof.
  revert st. induction due as [| t due IH]; intros st; simpl;
    [reflexivity | rewrite IH; reflexivity].
Qed.

Lemma elapse_processRef (st : State) (ms : nat) :
  processRef (elapse st ms) = processRef st.
Proof. unfold elapse. simpl. rewrite fire_processRef. reflexivity. Qed.

Lemma onData_processRef (st : State) (d : string) :
  processRef (onData st d) = processRef st.
Proof.
  unfold onData, scheduleUpdate. simpl.
  destruct (pendingUpdate st); reflexivity.
Qed.

Lemma step_dead (st : State) (ev : Event) :
  processRef st = None -> processRef (step st ev) = None.
Proof.
  intros H. destruct ev as [d | ms | k |]; cbn [step].
  - now rewrite onData_processRef.
  - now rewrite elapse_processRef.
  - now rewrite sendKey_dead.
  - reflexivity.
Qed.

Lemma run_dead (evs : list Event) (st : State) :
  processRef st = None -> processRef (run st evs) = None.
Proof.
  revert st. induction evs as [| ev evs IH]; intros st H; simpl;
    [assumption | apply IH, step_dead, H].
Qed.

(** C8: once the exit handler has cleared the process handle, a key event
    changes nothing, whatever happened in between: nothing is written and
    the state after [sendKey] is the state before it. *)
Theorem sendKey_after_exit (st : State) (evs : list Event) (key : Key) :
  sendKey (run (onProcExit st) evs) key = run (onProcExit st) evs
  /\ written (sendKey (run (onProcExit st) evs) key) = EmptyString.
Proof.
  assert (H : processRef (run (onProcExit st) evs) = None)
    by (apply run_dead; reflexivity).
  rewrite (sendKey_dead _ key H). split; [reflexivity |].
  unfold written, stdinOf. rewrite H. reflexivity.
Qed.

Lemma elapse_idle (st : State) (ms : nat) :
  timers st = [] ->
  elapse st ms
  = withClock (withTimers st [] (nextTimer st)) (clock st + Z.of_nat ms).
Proof. intros H. unfold elapse. rewrite H. reflexivity. Qed.

Lemma elapse_wait (st : State) (ms : nat) (id : nat) (due : Z) :
  timers st = [(id, due)] -> clock st + Z.of_nat ms < due ->
  elapse st ms
  = withClock (withTimers st [(id, due)] (nextTimer st))
              (clock st + Z.of_nat ms).
Proof.
  intros H Hlt. unfold elapse. rewrite H. simpl. unfold isDue. simpl.
  destruct (Z.leb_spec due (clock st + Z.of_nat ms)); [lia | reflexivity].
Qed.

Lemma elapse_fire (st : State) (ms : nat) (id : nat) (due : Z) :
  timers st = [(id, due)] -> due <= clock st + Z.of_nat ms ->
  elapse st ms
  = withClock (timerCallback (withClock (withTimers st [] (nextTimer st)) due))
              (clock st + Z.of_nat ms).
Proof.
  intros H Hle. unfold elapse. rewrite H. simpl. unfold isDue. simpl.
  destruct (Z.leb_spec due (clock st + Z.of_nat ms)); [reflexivity | lia].
Qed.

Lemma onData_arms (st : State) (d : string) :
  armed st ->
  pendingUpdate (onData st d) = Some (nextTimer st)
  /\ timers (onData st d) = [(nextTimer st, clock st + 16)]
  /\ clock (onData st d) = clock st
  /\ term (onData st d) = term st ++ [d]
  /\ displayed (onData st d) = displayed st.
Proof.
  unfold armed, onData, scheduleUpdate. simpl.
  destruct (pendingUpdate st) as [id |].
  - intros [due H]. simpl. rewrite H. simpl. rewrite Nat.eqb_refl. simpl.
    repeat split.
  - intros H. simpl. rewrite H. repeat split.
Qed.

Lemma armed_step (st : State) (ev : Event) : armed st -> armed (step st ev).
Proof.
  intros H. destruct ev as [d | ms | k |]; cbn [step].
  - destruct (onData_arms st d H) as (Hp & Ht & _).
    unfold armed. rewrite Hp. eexists. exact Ht.
  - unfold armed in H. destruct (pendingUpdate st) as [id |] eqn:Hp.
    + destruct H as [due H].
      destruct (Z.le_gt_cases due (clock st + Z.of_nat ms)) as [Hle | Hgt].
      * rewrite (elapse_fire st ms id due H Hle). reflexivity.
      * rewrite (elapse_wait st ms id due H Hgt).
        unfold armed. simpl. rewrite Hp. eexists. reflexivity.
    + rewrite (elapse_idle st ms H). unfold armed. simpl. rewrite Hp.
      reflexivity.
  - destruct (sendKey_shape st k) as [-> | [p ->]]; [assumption | exact H].
  - exact H.
Qed.

Lemma armed_run (evs : list Event) (st : State) :
  armed st -> armed (run st evs).
Proof.
  revert st. induction evs as [| ev evs IH]; intros st H; simpl;
    [assumption | apply IH, armed_step, H].
Qed.

Lemma armed_mounted : armed mounted.
Proof. reflexivity. Qed.

Lemma armed_one_timer (st : State) : armed st -> (List.length (timers st) <= 1)%nat.
Proof.
  unfold armed. destruct (pendingUpdate st).
  - intros [due ->]. simpl. lia.
  - intros ->. simpl. lia.
Qed.

(** The calls of a burst after its first: the timer is rearmed each time
    and never fires. *)
Lemma burst_rearms (more : list (nat * string)) (st : State) (id : nat) :
  pendingUpdate st = Some id -> timers st = [(id, clock st + 16)] ->
  Forall (fun gd => (fst gd < 16)%nat) more ->
  let st' :=
    run st (flat_map (fun gd => [Elapse (fst gd); Data (snd gd)]) more) in
  exists id',
    pendingUpdate st' = Some id'
    /\ timers st' = [(id', clock st + span more + 16)]
    /\ clock st' = clock st + span more
    /\ term st' = term st ++ map snd more
    /\ displayed st' = displayed st.
Proof.
  revert st id. induction more as [| [g d] more IH]; intros st id Hp Ht Hall.
  - simpl. exists id. rewrite Z.add_0_r, app_nil_r. auto.
  - inversion Hall as [| ? ? Hg Hall']; subst. simpl in Hg.
    cbn [flat_map fst snd app run fold_left step].
    rewrite (elapse_wait st g id _ Ht) by lia.
    set (st1 := withClock _ _).
    assert (Harmed : armed st1).
    { unfold armed, st1. simpl. rewrite Hp. eexists. reflexivity. }
    destruct (onData_arms st1 d Harmed) as (Hp2 & Ht2 & Hc2 & Hterm2 & Hd2).
    specialize (IH (onData st1 d) (nextTimer st1) Hp2).
    rewrite Hc2 in IH.
    specialize (IH Ht2 Hall').
    destruct IH as (id' & Hp3 & Ht3 & Hc3 & Hterm3 & Hd3).
    exists id'. fold (run (onData st1 d)
      (flat_map (fun gd => [Elapse (fst gd); Data (snd gd)]) more)).
    rewrite Hp3, Ht3, Hc3, Hterm3, Hd3, Hterm2, Hd2.
    unfold st1. cbn [clock term displayed withClock withTimers span fold_right fst].
    fold (span more). rewrite <- app_assoc. simpl.
    repeat split; try reflexivity; try lia.
    do 2 f_equal. lia.
Qed.

(** C7: at most one timer is armed at any time; and a burst of calls in
    which each call follows the previous one by less than 16 ms (so in
    particular any burst inside one 16 ms window) leads to exactly one
    more run of the render function, 16 ms after the last call, on the
    terminal state of that moment, and leaves no timer behind. *)
Theorem debounce_coalesces :
  (forall evs, (List.length (timers (run mounted evs)) <= 1)%nat) /\
  (forall evs first more ms,
     Forall (fun gd => (fst gd < 16)%nat) more -> (16 <= ms)%nat ->
     let st := run mounted evs in
     let st' := run st (burst first more ++ [Elapse ms]) in
     displayed st'
     = displayed st
       ++ [(clock st + span more + 16, term st ++ first :: map snd more)]
     /\ pendingUpdate st' = None
     /\ timers st' = []).
Proof.
  split.
  - intros evs. apply armed_one_timer, armed_run, armed_mounted.
  - intros evs first more ms Hall Hms st st'.
    assert (Harmed : armed st) by apply armed_run, armed_mounted.
    destruct (onData_arms st first Harmed) as (Hp & Ht & Hc & Hterm & Hd).
    rewrite <- Hc in Ht.
    destruct (burst_rearms more (onData st first) _ Hp Ht Hall)
      as (id' & Hp' & Ht' & Hc' & Hterm' & Hd').
    assert (Hst' : st' = elapse (run (onData st first)
              (flat_map (fun gd => [Elapse (fst gd); Data (snd gd)]) more)) ms).
    { unfold st', burst, run. cbn [app fold_left step].
      rewrite fold_left_app. reflexivity. }
    rewrite Hst'.
    rewrite (elapse_fire _ ms id' _ Ht') by (rewrite Hc'; lia).
    cbn [displayed pendingUpdate timers withClock timerCallback updateDisplay
         withPending withDisplayed withTimers term clock].
    rewrite Hd', Hd, Hterm', Hterm, Hc. rewrite <- app_assoc.
    repeat split.
Qed.

Lemma debounce_coalesces_witness :
  let more := [(1%nat, "b"); (0%nat, "c"); (1%nat, "d"); (0%nat, "e");
               (1%nat, "f"); (0%nat, "g"); (1%nat, "h"); (0%nat, "i");
               (1%nat, "j")]%string in
  displayed (run mounted (burst "a" more ++ [Elapse 16]))
  = [(21, ["a"; "b"; "c"; "d"; "e"; "f"; "g"; "h"; "i"; "j"]%string)].
Proof.
  intros more.
  refine (proj1 (proj2 debounce_coalesces [] "a"%string more 16%nat _ _)).
  - unfold more. repeat (constructor; [simpl; lia |]). constructor.
  - lia.
Defined.

End SchedulerFacts.

(** ** The supervisor's resume fallback *)

Section SupervisorFacts.
Import Js Supervisor.
Local Open Scope string_scope.
Local Open Scope Z_scope.

Lemma prefix_iff (n s : string) :
  String.prefix n s = true <-> exists b, s = n ++ b.
Proof.
  revert s. induction n as [| c n IH]; intros s.
  - split; [intros _; exists s; reflexivity | intros _; destruct s; reflexivity].
  - destruct s as [| c' s]; simpl.
    + split; [discriminate | intros [b H]; discriminate].
    + destruct (Ascii.ascii_dec c c') as [-> | Hne].
      * rewrite IH. split; intros [b H]; exists b; congruence.
      * split; [discriminate | intros [b H]; congruence].
Qed.

(** [includes] is the substring test. *)
Lemma includes_iff (s n : string) :
  includes s n = true <-> exists a b, s = a ++ n ++ b.
Proof.
  induction s as [| c s IH].
  - cbn [includes]. rewrite orb_false_r, prefix_iff. split.
    + intros [b H]. exists "", b. exact H.
    + intros (a & b & H). destruct a; simpl in H; [exists b; exact H | discriminate].
  - cbn [includes]. rewrite orb_true_iff, prefix_iff, IH. split.
    + intros [[b H] | (a & b & H)].
      * exists "", b. exact H.
      * exists (String c a), b. simpl. now rewrite H.
    + intros (a & b & H). destruct a as [| c' a]; simpl in H.
      * left. exists b. exact H.
      * right. exists a, b. congruence.
Qed.

Lemma signatureFound_iff (buffer : string) :
  signatureFound buffer = true <-> signature buffer.
Proof.
  unfold signatureFound, signature.
  rewrite orb_true_iff, andb_true_iff. reflexivity.
Qed.

Lemma onExit_retry (env : Env) (st : State) (x : ExitInfo) :
  truthy (originalSessionId env) = true ->
  exitCode x <> 0 -> now x - startTime st < 2000 ->
  signature (outputBuffer st) -> hasRetried st = false ->
  onExit env st x
  = (restarted env x,
     (persist env (fs x) (markerOf env x)
      ++ [Spawn (command env) ["--session-id"; uuid x] (cwd env)])%list).
Proof.
  intros Hid Hcode Hwin Hsig Hretry. unfold onExit.
  apply signatureFound_iff in Hsig. rewrite Hsig, Hid, Hretry.
  destruct (Z.eqb_spec (exitCode x) 0) as [? | _]; [contradiction |].
  destruct (Z.ltb_spec (now x - startTime st) 2000) as [_ | ?]; [| lia].
  reflexivity.
Qed.

Lemma onExit_terminal (env : Env) (st : State) (x : ExitInfo) :
  ~ (exitCode x <> 0 /\ now x - startTime st < 2000
     /\ signature (outputBuffer st) /\ hasRetried st = false) ->
  onExit env st x = (st, [ProcessExit (exitCode x)]).
Proof.
  intros Hno. unfold onExit.
  destruct (Z.eqb_spec (exitCode x) 0) as [? | Hcode]; [reflexivity |].
  destruct (Z.ltb_spec (now x - startTime st) 2000) as [Hwin | ?];
    [| reflexivity].
  destruct (hasRetried st) eqn:Hretry; [reflexivity |].
  destruct (truthy (originalSessionId env)); [| reflexivity].
  destruct (signatureFound (outputBuffer st)) eqn:Hsig; [| reflexivity].
  exfalso. apply Hno. apply signatureFound_iff in Hsig. auto.
Qed.

(** C1: in a session started with [--resume] and a session id, an exit
    with a non-zero status, less than 2000 ms after the start time, with
    the signature in the buffer and no earlier retry, makes the supervisor
    take a fresh id, write the marker (old id, new id, working directory,
    timestamp) to the marker file when the file system lets it, start the
    child again with exactly [--session-id <fresh id>] and reset the start
    time and the buffer; every other exit ends the supervisor with the
    child's exit status and starts nothing. *)
Theorem resume_fallback (env : Env) (st : State) (x : ExitInfo) :
  resumeMode env ->
  (exitCode x <> 0 -> now x - startTime st < 2000 ->
   signature (outputBuffer st) -> hasRetried st = false ->
   onExit env st x
   = (restarted env x,
      (persist env (fs x) (markerOf env x)
       ++ [Spawn (command env) ["--session-id"; uuid x] (cwd env)])%list)
   /\ (fs x = Written ->
       persist env (fs x) (markerOf env x)
       = [WriteFile (sessionUpdateFile env) (markerOf env x)])
   /\ (uuid x <> "--resume" -> ~ In "--resume" ["--session-id"; uuid x])
   /\ outputBuffer (restarted env x) = ""
   /\ startTime (restarted env x) = restartNow x)
  /\
  (~ (exitCode x <> 0 /\ now x - startTime st < 2000
      /\ signature (outputBuffer st) /\ hasRetried st = false) ->
   onExit env st x = (st, [ProcessExit (exitCode x)])).
Proof.
  intros [_ Hid]. split.
  - intros Hcode Hwin Hsig Hretry. repeat split.
    + apply onExit_retry; assumption.
    + intros ->. reflexivity.
    + intros Hne [H | [H | []]]; [discriminate | congruence].
  - apply onExit_terminal.
Qed.

Lemma resume_fallback_witness :
  let env := {| args := ["/work"; "claude"; "--resume"; "old-id"];
                processCwd := "/"; homedir := "/home/u" |} in
  let st := {| ptyProcess := None;
               outputBuffer := "No conversation found with session ID: old-id";
               startTime := 0; hasRetried := false |} in
  let x := {| exitCode := 1; now := 500; restartNow := 501;
              uuid := "new-id"; fs := Written; stampNow := 502 |} in
  onExit env st x
  = ({| ptyProcess := Some {| file := "claude";
                              argv := ["--session-id"; "new-id"];
                              dir := "/work" |};
        outputBuffer := ""; startTime := 501; hasRetried := true |},
     [WriteFile "/home/u/.multicode/session-update.json"
        {| oldSessionId := Some "old-id"; newSessionId := "new-id";
           markerCwd := "/work"; timestamp := 502 |};
      Spawn "claude" ["--session-id"; "new-id"] "/work"]).
Proof.
  intros env st x.
  refine (proj1 (proj1 (resume_fallback env st x _) _ _ _ _)).
  - split; [vm_compute; discriminate | reflexivity].
  - vm_compute; discriminate.
  - reflexivity.
  - left. reflexivity.
  - reflexivity.
Defined.

Lemma count_app (p : Effect -> bool) (a b : list Effect) :
  count p (a ++ b) = (count p a + count p b)%nat.
Proof. unfold count. rewrite filter_app, length_app. reflexivity. Qed.

Lemma persist_counts (env : Env) (o : FsOutcome) (m : Marker) :
  count isSpawn (persist env o m) = 0%nat
  /\ (count isWriteFile (persist env o m) <= 1)%nat.
Proof. destruct o; simpl; split; unfold count; simpl; lia. Qed.

(** A handler spends from the restart budget what it starts and writes. *)
Lemma step_budget (env : Env) (st : State) (ev : Event) :
  (count isSpawn (snd (step env st ev)) + budget (fst (step env st ev))
   <= budget st)%nat
  /\ (count isWriteFile (snd (step env st ev)) + budget (fst (step env st ev))
      <= budget st)%nat.
Proof.
  destruct ev as [t data | x | data |]; cbn [step].
  - unfold onData, budget.
    destruct (t - startTime st <? 2000); [| simpl; lia].
    destruct (negb (hasRetried st) && truthy (originalSessionId env)
              && (resumeIndex env >=? 0)); simpl; lia.
  - unfold onExit.
    destruct (negb (exitCode x =? 0) && (now x - startTime st <? 2000)
              && negb (hasRetried st) && truthy (originalSessionId env))
      eqn:Hcond; [| simpl; lia].
    destruct (signatureFound (outputBuffer st)); [| simpl; lia].
    rewrite !andb_true_iff, !negb_true_iff in Hcond.
    destruct Hcond as [[[_ _] Hretry] _].
    unfold budget. rewrite Hretry. cbn [startPty fst snd hasRetried].
    rewrite !count_app.
    destruct (persist_counts env (fs x) (markerOf env x)) as [Hs Hw].
    fold (markerOf env x). rewrite Hs.
    change (count isSpawn [Spawn (command env) ["--session-id"; uuid x] (cwd env)])
      with 1%nat.
    change (count isWriteFile
              [Spawn (command env) ["--session-id"; uuid x] (cwd env)])
      with 0%nat.
    lia.
  - unfold onStdin. destruct (ptyProcess st); simpl; lia.
  - unfold onSignal. destruct (ptyProcess st); simpl; lia.
Qed.

Lemma run_budget (env : Env) (evs : list Event) (st : State) :
  (count isSpawn (snd (run env st evs)) <= budget st)%nat
  /\ (count isWriteFile (snd (run env st evs)) <= budget st)%nat.
Proof.
  revert st. induction evs as [| ev evs IH]; intros st.
  - simpl. unfold count. simpl. lia.
  - cbn [run]. pose proof (step_budget env st ev) as Hstep.
    destruct (step env st ev) as [st1 out]. cbn [fst snd] in Hstep.
    destruct (existsb isProcessExit out); [cbn [snd]; lia |].
    specialize (IH st1). destruct (run env st1 evs) as [st2 out2].
    cbn [snd] in *. rewrite !count_app. lia.
Qed.

(** C2: once a retry has occurred, every later exit of the child, whatever
    its status, time and output, ends the supervisor with the child's exit
    status and starts and writes nothing; and over a whole session, from
    the first spawn on, there is at most one restart and at most one
    marker write. *)
Theorem retry_at_most_once :
  (forall env st x,
     hasRetried st = true ->
     onExit env st x = (st, [ProcessExit (exitCode x)]))
  /\ (forall env t0 evs,
        (count isSpawn (snd (session env t0 evs)) <= 2)%nat
        /\ (count isWriteFile (snd (session env t0 evs)) <= 1)%nat).
Proof.
  split.
  - intros env st x H. apply onExit_terminal.
    intros (_ & _ & _ & Hno). congruence.
  - intros env t0 evs. unfold session, boot, startPty.
    match goal with
    | |- context [run env ?s evs] =>
      pose proof (run_budget env evs s) as [Hs Hw];
      destruct (run env s evs) as [st1 out1]
    end.
    cbn [snd] in *. rewrite !count_app. unfold budget in *. simpl in *.
    lia.
Qed.

Lemma retry_at_most_once_witness :
  let env := {| args := ["/work"; "claude"; "--resume"; "old-id"];
                processCwd := "/"; homedir := "/home/u" |} in
  let st := {| ptyProcess := None;
               outputBuffer := "No conversation found";
               startTime := 0; hasRetried := true |} in
  let x := {| exitCode := 1; now := 500; restartNow := 501;
              uuid := "third-id"; fs := Written; stampNow := 502 |} in
  onExit env st x = (st, [ProcessExit 1]).
Proof.
  intros env st x. apply (proj1 retry_at_most_once env st x). reflexivity.
Defined.

Lemma resumeMode_suppresses (env : Env) :
  resumeMode env ->
  truthy (originalSessionId env) && (resumeIndex env >=? 0) = true.
Proof.
  intros [Hidx Hid]. rewrite Hid. simpl.
  apply Z.geb_le. lia.
Qed.

Lemma run_data_resume (env : Env) (ds : list (Z * string))
    (p : option Pty) (buffer : string) (start : Z) :
  resumeMode env ->
  run env {| ptyProcess := p; outputBuffer := buffer; startTime := start;
             hasRetried := false |} (dataEvents ds)
  = ({| ptyProcess := p;
        outputBuffer := buffer ++ emitted (filter (inWindow start) ds);
        startTime := start; hasRetried := false |},
     map (fun d => StdoutWrite (snd d))
         (filter (fun d => negb (inWindow start d)) ds)).
Proof.
  intros Hmode. pose proof (resumeMode_suppresses env Hmode) as Hsup.
  revert buffer. induction ds as [| [t data] ds IH]; intros buffer.
  - simpl. now rewrite append_nil_r.
  - cbn [dataEvents map run step fst snd filter]. unfold onData.
    cbn [startTime hasRetried outputBuffer ptyProcess negb].
    change (t - start <? 2000) with (inWindow start (t, data)).
    rewrite <- andb_assoc. cbn [andb]. rewrite Hsup.
    destruct (inWindow start (t, data)).
    + cbn [existsb negb]. fold (dataEvents ds). rewrite IH.
      cbn [emitted fold_right snd app].
      fold (emitted (filter (inWindow start) ds)).
      now rewrite append_assoc.
    + cbn [existsb isProcessExit orb negb]. fold (dataEvents ds). rewrite IH.
      reflexivity.
Qed.

Lemma forwarded_writes (ds : list (Z * string)) :
  forwarded (map (fun d => StdoutWrite (snd d)) ds) = emitted ds.
Proof.
  induction ds as [| d ds IH]; simpl; [reflexivity | now rewrite IH].
Qed.

(** C3, as the code has it: in a resume session that has not retried, the
    chunks that arrive inside the 2000 ms window are appended to the buffer
    and never reach the caller, at the end of the window or later; the
    chunks that arrive after it are passed through, each as it arrives and
    in the order of arrival. *)
Theorem window_output_withheld (env : Env) (st : State)
    (ds : list (Z * string)) :
  resumeMode env -> hasRetried st = false ->
  let outside := filter (fun d => negb (inWindow (startTime st) d)) ds in
  let inside := filter (inWindow (startTime st)) ds in
  snd (run env st (dataEvents ds)) = map (fun d => StdoutWrite (snd d)) outside
  /\ forwarded (snd (run env st (dataEvents ds))) = emitted outside
  /\ outputBuffer (fst (run env st (dataEvents ds)))
     = outputBuffer st ++ emitted inside.
Proof.
  intros Hmode Hretry outside inside. destruct st as [p buffer start retried].
  simpl in Hretry. subst retried. cbn [startTime outputBuffer] in *.
  rewrite (run_data_resume env ds p buffer start Hmode). cbn [fst snd].
  repeat split. apply forwarded_writes.
Qed.

Lemma resumeEnv_resumeMode : resumeMode resumeEnv.
Proof. split; [vm_compute; discriminate | reflexivity]. Qed.

Lemma window_output_withheld_witness :
  forwarded (snd (run resumeEnv (fst (boot resumeEnv 0))
                      (dataEvents [(100, "hello"); (2500, "world")])))
  = "world".
Proof.
  refine (proj1 (proj2 (window_output_withheld resumeEnv
            (fst (boot resumeEnv 0)) [(100, "hello"); (2500, "world")] _ _))).
  - exact resumeEnv_resumeMode.
  - reflexivity.
Defined.

(** C3 as the specification states it fails: a chunk that arrived inside
    the window is never forwarded, although the window has elapsed without
    the signature and a later chunk has been passed through. *)
Lemma buffered_output_not_released :
  ~ releasesBuffered resumeEnv 0 [(100, "hello"); (2500, "world")].
Proof.
  unfold releasesBuffered. intros H.
  specialize (H eq_refl eq_refl). vm_compute in H. discriminate H.
Qed.

(** C6: whatever the original arguments were, the only child the exit
    handler ever starts gets exactly the two arguments [--session-id] and
    the fresh id; no other original argument is passed on. *)
Theorem restart_args_exact (env : Env) (st : State) (x : ExitInfo)
    (f : string) (a : list string) (d : string) :
  In (Spawn f a d) (snd (onExit env st x)) ->
  a = ["--session-id"; uuid x]
  /\ (forall arg, In arg (cmdArgs env) ->
        arg <> "--session-id" -> arg <> uuid x -> ~ In arg a).
Proof.
  intros Hin.
  assert (Ha : a = ["--session-id"; uuid x]).
  { unfold onExit in Hin.
    destruct (negb (exitCode x =? 0) && (now x - startTime st <? 2000)
              && negb (hasRetried st) && truthy (originalSessionId env)).
    2:{ destruct Hin as [H | []]; discriminate H. }
    destruct (signatureFound (outputBuffer st)).
    2:{ destruct Hin as [H | []]; discriminate H. }
    cbn [startPty snd] in Hin. apply in_app_or in Hin.
    destruct Hin as [Hin | [Hin | []]].
    - destruct (fs x); simpl in Hin; try contradiction.
      destruct Hin as [H | []]; discriminate H.
    - injection Hin as _ Hargs _. symmetry. exact Hargs. }
  split; [exact Ha |].
  intros arg _ Hflag Hid Hin'. subst a.
  destruct Hin' as [H | [H | []]]; congruence.
Qed.

Lemma restart_args_exact_witness :
  In (Spawn "claude" ["--session-id"; "new-id"] "/work")
     (snd (onExit resumeEnv failedResume quickFailure))
  /\ ~ In "--verbose" ["--session-id"; "new-id"].
Proof.
  assert (Hin : In (Spawn "claude" ["--session-id"; "new-id"] "/work")
                   (snd (onExit resumeEnv failedResume quickFailure)))
    by (right; left; reflexivity).
  split; [exact Hin |].
  apply (proj2 (restart_args_exact resumeEnv failedResume quickFailure
                  _ _ _ Hin) "--verbose").
  - right. right. left. reflexivity.
  - discriminate.
  - discriminate.
Defined.

End SupervisorFacts.

(** ** Compositor *)

Section CompositorFacts.
Import Color Compositor.

Variable toString : RGBA -> string.
Variable createTextAttributes : TextAttributesOptions -> Z.

Local Abbreviation cellStep := (cellStep toString createTextAttributes).
Local Abbreviation rowStep := (rowStep toString createTextAttributes).
Local Abbreviation lineRuns := (lineRuns toString createTextAttributes).
Local Abbreviation extractStyledText :=
  (extractStyledText toString createTextAttributes).
Local Abbreviation styleKey := (styleKey toString).
Local Abbreviation currentKey := (currentKey toString).
Local Abbreviation rowInvariant := (rowInvariant toString).
Local Abbreviation sameKey :=
  (fun a b : TextChunk => styleKey a = styleKey b).

(** *** Lists without related neighbours *)

Lemma NoAdjacent_weaken {A : Type} (R R' : A -> A -> Prop) (l : list A) :
  (forall a b, R' a b -> R a b) -> NoAdjacent R l -> NoAdjacent R' l.
Proof.
  intros Himp H. induction H as [| a | a b l Hab _ IH]; constructor; auto.
Qed.

Lemma NoAdjacent_app {A : Type} (R : A -> A -> Prop) (l1 l2 : list A) :
  NoAdjacent R l1 -> NoAdjacent R l2 ->
  (forall l a b l', l1 = l ++ [a] -> l2 = b :: l' -> ~ R a b) ->
  NoAdjacent R (l1 ++ l2).
Proof.
  intros H1 H2. induction H1 as [| a | a b l Hab Hrest IH]; intros Hjoin.
  - exact H2.
  - destruct l2 as [| b l']; [constructor |].
    simpl. constructor; [| exact H2].
    apply (Hjoin [] a b l'); reflexivity.
  - simpl. constructor; [exact Hab |].
    apply IH. intros l0 a0 b0 l' Heq1 Heq2.
    apply (Hjoin (a :: l0) a0 b0 l'); [| exact Heq2].
    simpl. now rewrite <- Heq1.
Qed.

Lemma NoAdjacent_snoc {A : Type} (R : A -> A -> Prop) (l : list A) (b : A) :
  NoAdjacent R l -> (forall l' a, l = l' ++ [a] -> ~ R a b) ->
  NoAdjacent R (l ++ [b]).
Proof.
  intros H Hlast. apply NoAdjacent_app; [exact H | constructor |].
  intros l0 a b0 l' Heq1 Heq2. injection Heq2 as <- _.
  exact (Hlast l0 a Heq1).
Qed.

Lemma NoAdjacent_prefix {A : Type} (R : A -> A -> Prop) (l1 l2 : list A) :
  NoAdjacent R (l1 ++ l2) -> NoAdjacent R l1.
Proof.
  revert l2. induction l1 as [| a l1 IH]; intros l2 H; [constructor |].
  destruct l1 as [| b l1]; [constructor |].
  simpl in H. inversion H as [| | ? ? ? Hab Hrest]; subst.
  constructor; [exact Hab |]. apply (IH l2). exact Hrest.
Qed.

(** *** The column loop *)

Lemma orUndefined_inj (a b : Z) : orUndefined a = orUndefined b -> a = b.
Proof.
  unfold orUndefined.
  destruct (Z.eqb_spec a 0), (Z.eqb_spec b 0); congruence.
Qed.

Lemma opt_string_eqb_eq (a b : option string) :
  opt_string_eqb a b = true <-> a = b.
Proof.
  destruct a as [x |], b as [y |]; simpl;
    try (split; [discriminate | discriminate]); try (split; reflexivity).
  rewrite String.eqb_eq. split; congruence.
Qed.

Lemma cellStep_prepend (line : Line) (acc : list TextChunk)
    (st : RowState) (x : nat) :
  cellStep line (prepend acc st) x = prepend acc (cellStep line st x).
Proof.
  unfold Compositor.cellStep. destruct (getCell line x) as [cell |];
    [| reflexivity].
  destruct (getWidth cell =? 0); [reflexivity |].
  unfold prepend at 2. cbn [chunks currentText currentFg currentBg currentAttrs prepend].
  f_equal.
  match goal with |- context [if ?c then _ else _] => destruct c end;
    [| reflexivity].
  rewrite <- app_assoc. reflexivity.
Qed.

Lemma fold_cellStep_prepend (line : Line) (acc : list TextChunk)
    (xs : list nat) (st : RowState) :
  fold_left (cellStep line) xs (prepend acc st)
  = prepend acc (fold_left (cellStep line) xs st).
Proof.
  revert st. induction xs as [| x xs IH]; intros st; simpl;
    [reflexivity | now rewrite cellStep_prepend, IH].
Qed.

Lemma changed_iff (a a' b b' : option string) (z z' : Z) :
  negb (opt_string_eqb a a') || negb (opt_string_eqb b b') || negb (z =? z')
  = false
  <-> (a, b, orUndefined z) = (a', b', orUndefined z').
Proof.
  rewrite !orb_false_iff, !negb_false_iff, !opt_string_eqb_eq, Z.eqb_eq.
  split.
  - intros [[-> ->] ->]. reflexivity.
  - intros H. injection H as -> -> Hz. apply orUndefined_inj in Hz. auto.
Qed.

(** One iteration either leaves the variables alone, or closes the run in
    progress at a change of key and opens the next, or extends the run. *)
Lemma cellStep_cases (line : Line) (st : RowState) (x : nat) :
  cellStep line st x = st
  \/ exists char fg bg attrs,
       char <> []
       /\ ((currentKey {| chunks := []; currentText := []; currentFg := fg;
                          currentBg := bg; currentAttrs := attrs |}
            <> currentKey st
            /\ currentText st <> []
            /\ cellStep line st x
               = {| chunks := chunks st ++ [currentChunk st (currentText st)];
                    currentText := char; currentFg := fg; currentBg := bg;
                    currentAttrs := attrs |})
           \/ ((currentKey {| chunks := []; currentText := [];
                              currentFg := fg; currentBg := bg;
                              currentAttrs := attrs |}
                = currentKey st \/ currentText st = [])
               /\ cellStep line st x
                  = {| chunks := chunks st;
                       currentText := currentText st ++ char;
                       currentFg := fg; currentBg := bg;
                       currentAttrs := attrs |})).
Proof.
  unfold Compositor.cellStep.
  destruct (getCell line x) as [cell |]; [| now left].
  destruct (getWidth cell =? 0); [now left |].
  right. cbv zeta.
  eexists _, _, _, _. split; cycle 1.
  - match goal with
    | |- context [(?c && nonempty (currentText st))%bool] =>
      destruct c eqn:Hchanged
    end.
    + destruct (currentText st) as [| u t] eqn:Htext.
      * right. split; [now right | reflexivity].
      * left. split; [| split; [discriminate | reflexivity]].
        intros Hkey. unfold Compositor.currentKey in Hkey.
        cbn [currentFg currentBg currentAttrs] in Hkey.
        apply changed_iff in Hkey. congruence.
    + right. split; [| reflexivity].
      left. unfold Compositor.currentKey.
      cbn [currentFg currentBg currentAttrs].
      apply changed_iff. exact Hchanged.
  - destruct (getChars cell); simpl; discriminate.
Qed.

Lemma snoc_inj {A : Type} (l l' : list A) (a a' : A) :
  l ++ [a] = l' ++ [a'] -> a = a'.
Proof. intros H. apply app_inj_tail in H. tauto. Qed.

Lemma cellStep_invariant (line : Line) (st : RowState) (x : nat) :
  NoAdjacent sameKey (chunks st) -> rowInvariant st ->
  NoAdjacent sameKey (chunks (cellStep line st x))
  /\ rowInvariant (cellStep line st x).
Proof.
  intros Hno [Hempty Hlast].
  destruct (cellStep_cases line st x)
    as [-> | (char & fg & bg & attrs & Hchar
              & [(Hkey & Htext & ->) | (Hsame & ->)])].
  - split; [exact Hno | split; assumption].
  - cbn [chunks]. split; [| split].
    + apply NoAdjacent_snoc; [exact Hno |].
      intros l a Heq. exact (Hlast l a Heq).
    + cbn [currentText]. intros H. contradiction.
    + cbn [chunks]. intros l c Heq. apply snoc_inj in Heq. subst c.
      intros H. apply Hkey. symmetry. exact H.
  - cbn [chunks]. split; [exact Hno | split].
    + cbn [currentText]. intros H. apply app_eq_nil in H. tauto.
    + cbn [chunks]. intros l c Heq.
      destruct Hsame as [Hsame | Htext].
      * unfold Compositor.currentKey in *. cbn in Hsame |- *.
        rewrite Hsame. exact (Hlast l c Heq).
      * rewrite (Hempty Htext) in Heq. destruct l; discriminate Heq.
Qed.

Lemma fold_cellStep_invariant (line : Line) (xs : list nat) (st : RowState) :
  NoAdjacent sameKey (chunks st) -> rowInvariant st ->
  NoAdjacent sameKey (chunks (fold_left (cellStep line) xs st))
  /\ rowInvariant (fold_left (cellStep line) xs st).
Proof.
  revert st. induction xs as [| x xs IH]; intros st Hno Hinv; simpl.
  - split; assumption.
  - destruct (cellStep_invariant line st x Hno Hinv) as [Hno' Hinv'].
    apply IH; assumption.
Qed.

(** *** The row loop *)

Lemma styleKey_currentChunk (st : RowState) (t : jsstring) :
  styleKey (currentChunk st t) = currentKey st.
Proof. reflexivity. Qed.

Lemma sameStyle_sameKey (a b : TextChunk) : sameStyle a b -> sameKey a b.
Proof.
  unfold sameStyle, style, Compositor.styleKey. intros H.
  injection H as -> -> ->. reflexivity.
Qed.

Lemma lineRuns_sameKey (line : Line) (cols : nat) :
  NoAdjacent sameKey (lineRuns line cols).
Proof.
  unfold Compositor.lineRuns, Compositor.rowStep. cbn [getLine nth_error].
  change (Z.of_nat 0 <? Z.of_nat 1 - 1) with false. cbv iota.
  match goal with
  | |- context [fold_left ?f ?xs ?init] =>
    destruct (fold_cellStep_invariant line xs init) as [Hno [Hempty Hlast]]
  end.
  - constructor.
  - split; [reflexivity |]. intros [| ? ?] c H; discriminate H.
  - destruct (nonempty (currentText _)); [| exact Hno].
    apply NoAdjacent_snoc; [exact Hno |].
    intros l a Heq. rewrite styleKey_currentChunk. exact (Hlast l a Heq).
Qed.

Lemma rowStep_app (buffer : Buffer) (cols rows : nat)
    (acc : list TextChunk) (y : nat) (line : Line) :
  getLine buffer y = Some line ->
  rowStep buffer cols rows acc y
  = acc ++ lineRuns line cols
        ++ (if Z.of_nat y <? Z.of_nat rows - 1 then [newline] else []).
Proof.
  intros Hline. unfold Compositor.lineRuns, Compositor.rowStep.
  rewrite Hline. cbn [getLine nth_error].
  change (Z.of_nat 0 <? Z.of_nat 1 - 1) with false. cbv iota.
  set (init := {| chunks := []; currentText := []; currentFg := None;
                  currentBg := None; currentAttrs := 0 |}).
  replace {| chunks := acc; currentText := []; currentFg := None;
             currentBg := None; currentAttrs := 0 |}
    with (prepend acc init)
    by (unfold prepend, init; cbn; now rewrite app_nil_r).
  rewrite fold_cellStep_prepend.
  cbn [prepend chunks currentText currentFg currentBg currentAttrs
       currentChunk].
  fold (currentChunk (fold_left (cellStep line) (seq 0 cols) init)
          (trimEnd (currentText (fold_left (cellStep line) (seq 0 cols) init)))).
  destruct (nonempty (currentText (fold_left (cellStep line) (seq 0 cols) init)));
    destruct (Z.of_nat y <? Z.of_nat rows - 1);
    rewrite <- ?app_assoc, ?app_nil_r; reflexivity.
Qed.

(** What the row loop keeps true of the array before the last row: no two
    neighbours of one row share a style, and the array ends with the
    newline run unless it is empty. *)
Lemma rowStep_invariant (buffer : Buffer) (cols rows : nat)
    (acc : list TextChunk) (y : nat) :
  NoAdjacent sameStyleInRow acc ->
  (forall l a, acc = l ++ [a] -> a = newline) ->
  NoAdjacent sameStyleInRow (rowStep buffer cols rows acc y)
  /\ (Z.of_nat y < Z.of_nat rows - 1 ->
      forall l a, rowStep buffer cols rows acc y = l ++ [a] -> a = newline).
Proof.
  intros Hno Hend.
  destruct (getLine buffer y) as [line |] eqn:Hline.
  2:{ unfold Compositor.rowStep. rewrite Hline. split; [exact Hno | auto]. }
  rewrite (rowStep_app buffer cols rows acc y line Hline).
  assert (Hruns : NoAdjacent sameStyleInRow (lineRuns line cols)).
  { apply NoAdjacent_weaken with (R := sameKey); [| apply lineRuns_sameKey].
    intros a b [H _]. apply sameStyle_sameKey, H. }
  destruct (Z.ltb_spec (Z.of_nat y) (Z.of_nat rows - 1)) as [Hlt | Hge].
  - split.
    + apply NoAdjacent_app; [exact Hno | |].
      * apply NoAdjacent_snoc; [exact Hruns |].
        intros l a _ (_ & _ & H). now apply H.
      * intros l a b l' Heq _ (_ & H & _). apply H. exact (Hend l a Heq).
    + intros _ l a Heq. rewrite app_assoc in Heq.
      apply snoc_inj in Heq. now subst a.
  - split; [| lia]. rewrite app_nil_r.
    apply NoAdjacent_app; [exact Hno | exact Hruns |].
    intros l a b l' Heq _ (_ & H & _). apply H. exact (Hend l a Heq).
Qed.

Lemma rows_invariant (buffer : Buffer) (cols rows k : nat) :
  Z.of_nat k <= Z.of_nat rows - 1 ->
  NoAdjacent sameStyleInRow (fold_left (rowStep buffer cols rows) (seq 0 k) [])
  /\ (forall l a,
        fold_left (rowStep buffer cols rows) (seq 0 k) [] = l ++ [a] ->
        a = newline).
Proof.
  induction k as [| k IH]; intros Hk.
  - simpl. split; [constructor |]. intros [| ? ?] a H; discriminate H.
  - rewrite seq_S, fold_left_app. cbn [fold_left Nat.add].
    destruct IH as [Hno Hend]; [lia |].
    destruct (rowStep_invariant buffer cols rows _ k Hno Hend) as [H1 H2].
    split; [exact H1 | apply H2; lia].
Qed.

Lemma popTrailing_suffix (reversed : list TextChunk) :
  exists popped, reversed = popped ++ popTrailing reversed.
Proof.
  induction reversed as [| last rest [popped IH]]; [exists []; reflexivity |].
  cbn [popTrailing].
  destruct (jseqb (text last) (text newline)
            || negb (nonempty (trim (text last)))).
  - exists (last :: popped). simpl. now rewrite <- IH.
  - exists []. reflexivity.
Qed.

Lemma extract_noAdjacent (buffer : Buffer) (cols rows : nat) :
  NoAdjacent sameStyleInRow (extractStyledText buffer cols rows).
Proof.
  unfold Compositor.extractStyledText. cbv zeta.
  set (all := fold_left (rowStep buffer cols rows) (seq 0 rows) []).
  assert (Hall : NoAdjacent sameStyleInRow all).
  { unfold all. destruct rows as [| k]; [constructor |].
    rewrite seq_S, fold_left_app. cbn [fold_left Nat.add].
    destruct (rows_invariant buffer cols (S k) k) as [Hno Hend]; [lia |].
    apply (rowStep_invariant buffer cols (S k) _ k Hno Hend). }
  destruct (popTrailing_suffix (rev all)) as [popped Heq].
  apply NoAdjacent_prefix with (l2 := rev popped).
  rewrite <- rev_app_distr, <- Heq, rev_involutive. exact Hall.
Qed.

(** C4, as the code has it: the runs a row gives are maximally merged (no
    two neighbours among them share the (foreground, background,
    attributes) triple, so a row is split only where the style changes);
    each row's runs are appended as a block, followed by the newline run
    unless the row is the last; and two neighbouring runs of the output
    that share a triple include the newline run. *)
Theorem runs_merged_within_rows (buffer : Buffer) (cols rows : nat) :
  (forall y line acc,
     getLine buffer y = Some line ->
     NoAdjacent sameStyle (lineRuns line cols)
     /\ rowStep buffer cols rows acc y
        = acc ++ lineRuns line cols
              ++ (if Z.of_nat y <? Z.of_nat rows - 1 then [newline] else []))
  /\ NoAdjacent sameStyleInRow (extractStyledText buffer cols rows).
Proof.
  split; [| apply extract_noAdjacent].
  intros y line acc Hline. split; [| apply rowStep_app, Hline].
  apply NoAdjacent_weaken with (R := sameKey); [| apply lineRuns_sameKey].
  apply sameStyle_sameKey.
Qed.

End CompositorFacts.

Section CompositorExamples.
Import Color Compositor.

Example extract_two_tone :
  extractStyledText channelsText textAttributes
    [twoToneLine; [cellOf " " 0 0]] 3 2
  = [ {| text := units "ab"; fg := Some (fromInts 187 0 0); bg := None;
         attributes := None |};
      plainRun "c" ].
Proof. vm_compute. reflexivity. Qed.

Example extract_two_plain_rows :
  extractStyledText channelsText textAttributes twoPlainRows 1 2
  = [plainRun "a"; newline; plainRun "b"].
Proof. vm_compute. reflexivity. Qed.

Lemma runs_merged_within_rows_witness :
  NoAdjacent sameStyle (lineRuns channelsText textAttributes twoToneLine 3).
Proof.
  exact (proj1 (proj1 (runs_merged_within_rows channelsText textAttributes
                         [twoToneLine] 3 1)
                      0%nat twoToneLine [] eq_refl)).
Defined.

(** C4 as the specification states it fails: between two rows of plain
    text the newline run has the same (empty) style as both its
    neighbours, and the text is split there without any change of style. *)
Lemma newline_run_shares_style :
  ~ NoAdjacent sameStyle
      (extractStyledText channelsText textAttributes twoPlainRows 1 2).
Proof.
  rewrite extract_two_plain_rows. intros H.
  inversion H as [| | ? ? ? Hdiffer _]; subst.
  apply Hdiffer. reflexivity.
Qed.

End CompositorExamples.

(* ================================================================== *)
(** * Further properties *)
(* ================================================================== *)

(** ** Colour resolver: the palettes and the packed colours *)

Section ColorPalettes.
Import Js Color.

Lemma toInt32_signed (n : Z) : - 2 ^ 31 <= n < 2 ^ 31 -> toInt32 n = n.
Proof. intros H. unfold toInt32. rewrite Z.mod_small; lia. Qed.

Lemma toInt32_congr (n : Z) : exists q, toInt32 n = n + q * 2 ^ 32.
Proof.
  unfold toInt32. exists (- ((n + 2 ^ 31) / 2 ^ 32)).
  pose proof (Z.div_mod (n + 2 ^ 31) (2 ^ 32) ltac:(lia)). lia.
Qed.

Lemma band_byte_mod (n : Z) : band n 0xff = n mod 256.
Proof.
  unfold band. rewrite (toInt32_signed 255) by lia.
  change 255 with (Z.ones 8). rewrite Z.land_ones by lia.
  destruct (toInt32_congr n) as [q ->].
  change (2 ^ 8) with 256.
  replace (n + q * 2 ^ 32) with (n + (q * 16777216) * 256)
    by (change (2 ^ 32) with 4294967296; lia).
  apply Z.mod_add. lia.
Qed.

Lemma sar_div (n k : Z) :
  0 <= k <= 24 -> exists q, sar n k = n / 2 ^ k + q * 256.
Proof.
  intros Hk. unfold sar. rewrite Z.shiftr_div_pow2 by lia.
  destruct (toInt32_congr n) as [q ->].
  exists (q * 2 ^ (24 - k)).
  replace (2 ^ 32) with (2 ^ (24 - k) * 256 * 2 ^ k).
  2:{ change 256 with (2 ^ 8). rewrite <- !Z.pow_add_r by lia. f_equal. lia. }
  rewrite !Z.mul_assoc, Z.div_add by lia. lia.
Qed.

(** Each channel of a packed colour is one base-256 digit of the number. *)
Lemma channel_mod (n k : Z) :
  0 <= k <= 24 -> band (sar n k) 0xff = (n / 2 ^ k) mod 256.
Proof.
  intros Hk. rewrite band_byte_mod. destruct (sar_div n k Hk) as [q ->].
  apply Z.mod_add. lia.
Qed.

Lemma resolve_rgb_digits (color : Z) :
  xtermColorToRGBA color CM_RGB
  = Some (fromInts ((color / 65536) mod 256) ((color / 256) mod 256)
                   (color mod 256)).
Proof.
  unfold xtermColorToRGBA. simpl (_ =? _).
  rewrite (channel_mod color 16), (channel_mod color 8), band_byte_mod by lia.
  reflexivity.
Qed.

(** X1: under the 256-colour mode every index below 16 resolves as under
    the 16-colour mode, and the indices 0..15 resolve to a colour. *)
Theorem palette256_extends_palette16 (color : Z) :
  color < 16 ->
  xtermColorToRGBA color CM_P256 = xtermColorToRGBA color CM_P16
  /\ (0 <= color -> exists rgb, xtermColorToRGBA color CM_P16 = Some rgb).
Proof.
  intros H. unfold xtermColorToRGBA. simpl (_ =? _).
  destruct (Z.ltb_spec color 16) as [_ | ?]; [| lia].
  split; [reflexivity |]. intros Hpos. unfold index.
  destruct (Z.ltb_spec color 0) as [? | _]; [lia |].
  destruct (nth_error COLOR_PALETTE_16 (Z.to_nat color)) as [rgb |] eqn:Hnth.
  - exists rgb. reflexivity.
  - apply nth_error_None in Hnth. simpl in Hnth. lia.
Qed.

Lemma palette256_extends_palette16_witness :
  xtermColorToRGBA 9 CM_P256 = xtermColorToRGBA 9 CM_P16.
Proof. apply (palette256_extends_palette16 9). lia. Defined.

(** X2: the indices 16..231 of the 256-colour mode form a 6x6x6 cube: each
    channel is 51 times a digit 0..5, and the three digits are the base-6
    digits of the index minus 16, so distinct indices give distinct
    colours. *)
Theorem palette256_cube (color : Z) :
  16 <= color <= 231 ->
  exists i j k,
    0 <= i <= 5 /\ 0 <= j <= 5 /\ 0 <= k <= 5
    /\ color = 16 + 36 * i + 6 * j + k
    /\ xtermColorToRGBA color CM_P256
       = Some (fromInts (51 * i) (51 * j) (51 * k)).
Proof.
  intros H. unfold xtermColorToRGBA, floor_div, js_rem. simpl (_ =? _).
  destruct (Z.ltb_spec color 16) as [? | _]; [lia |].
  destruct (Z.ltb_spec color 232) as [_ | ?]; [| lia].
  cbv zeta. rewrite !Z.rem_mod_nonneg by lia.
  exists ((color - 16) / 36), ((color - 16) mod 36 / 6), ((color - 16) mod 6).
  repeat split; try (Z.to_euclidean_division_equations; lia).
  f_equal. f_equal; lia.
Qed.

Lemma palette256_cube_witness :
  exists i j k,
    0 <= i <= 5 /\ 0 <= j <= 5 /\ 0 <= k <= 5
    /\ 196 = 16 + 36 * i + 6 * j + k
    /\ xtermColorToRGBA 196 CM_P256
       = Some (fromInts (51 * i) (51 * j) (51 * k)).
Proof. apply (palette256_cube 196). lia. Defined.



(** X4: under the true-colour mode every integer resolves to a colour with
    channels in 0..255, and only the low 24 bits of the integer matter. *)
Theorem truecolor_low_24_bits (color : Z) :
  xtermColorToRGBA color CM_RGB = xtermColorToRGBA (color mod 2 ^ 24) CM_RGB
  /\ exists r g b,
       xtermColorToRGBA color CM_RGB = Some (fromInts r g b)
       /\ 0 <= r <= 255 /\ 0 <= g <= 255 /\ 0 <= b <= 255.
Proof.
  rewrite !resolve_rgb_digits. change (2 ^ 24) with 16777216. split.
  - f_equal. f_equal; Z.to_euclidean_division_equations; lia.
  - eexists _, _, _. split; [reflexivity |].
    repeat split; Z.to_euclidean_division_equations; lia.
Qed.

End ColorPalettes.

(** ** Compositor: what a row's runs spell and where the output ends *)

Section CompositorText.
Import Color Compositor.

Variable toString : RGBA -> string.
Variable createTextAttributes : TextAttributesOptions -> Z.

Local Abbreviation cellStep := (cellStep toString createTextAttributes).
Local Abbreviation rowStep := (rowStep toString createTextAttributes).
Local Abbreviation lineRuns := (lineRuns toString createTextAttributes).
Local Abbreviation extractStyledText :=
  (extractStyledText toString createTextAttributes).




Lemma lineRuns_unfold (line : Line) (cols : nat) :
  lineRuns line cols
  = let st := fold_left (cellStep line) (seq 0 cols)
                {| chunks := []; currentText := []; currentFg := None;
                   currentBg := None; currentAttrs := 0 |} in
    if nonempty (currentText st)
    then chunks st ++ [currentChunk st (trimEnd (currentText st))]
    else chunks st.
Proof.
  unfold Compositor.lineRuns, Compositor.rowStep. cbn [getLine nth_error].
  change (Z.of_nat 0 <? Z.of_nat 1 - 1) with false. reflexivity.
Qed.


Lemma cellStep_runsSoFar (line : Line) (st : RowState) (x : nat) :
  (runsSoFar (cellStep line st x) <= runsSoFar st + 1)%nat.
Proof.
  unfold Compositor.cellStep, runsSoFar.
  destruct (getCell line x) as [cell |]; [| lia].
  destruct (getWidth cell =? 0); [lia |].
  cbv zeta. cbn [chunks currentText].
  set (char := if nonempty (getChars cell) then getChars cell else units " ").
  assert (Hchar : forall a, nonempty (a ++ char) = true).
  { intros [| ? ?]; [| reflexivity].
    unfold char. destruct (getChars cell); reflexivity. }
  match goal with
  | |- context [(?c && nonempty (currentText st))%bool] => destruct c
  end; cbn [andb].
  - destruct (currentText st) as [| u t]; cbn [nonempty]; rewrite Hchar.
    + lia.
    + rewrite length_app. simpl. lia.
  - rewrite Hchar. destruct (nonempty (currentText st)); lia.
Qed.

(** X6: a row never gives more runs than the columns it was read over. *)
Theorem row_runs_bounded (line : Line) (cols : nat) :
  (List.length (lineRuns line cols) <= cols)%nat.
Proof.
  rewrite lineRuns_unfold. cbv zeta.
  assert (H : forall xs st,
             (runsSoFar (fold_left (cellStep line) xs st)
              <= runsSoFar st + List.length xs)%nat).
  { induction xs as [| x xs IH]; intros st; simpl; [lia |].
    specialize (IH (cellStep line st x)).
    pose proof (cellStep_runsSoFar line st x). lia. }
  match goal with
  | |- context [fold_left ?f ?xs ?init] =>
    specialize (H xs init); set (st := fold_left f xs init) in *
  end.
  rewrite length_seq in H. unfold runsSoFar in H. cbn [chunks currentText nonempty List.length] in H.
  destruct (nonempty (currentText st)); [rewrite length_app; simpl |]; lia.
Qed.

Lemma popTrailing_head (reversed rest : list TextChunk) (c : TextChunk) :
  popTrailing reversed = c :: rest ->
  jseqb (text c) (text newline) || negb (nonempty (trim (text c))) = false.
Proof.
  induction reversed as [| last more IH]; cbn [popTrailing]; [discriminate |].
  destruct (jseqb (text last) (text newline)
            || negb (nonempty (trim (text last)))) eqn:Hblank.
  - exact IH.
  - intros H. injection H as <- _. exact Hblank.
Qed.

(** X7: the output never ends in a blank: its last run, if there is one,
    is not the newline text and has text left after trimming. *)
Theorem extract_ends_in_text (buffer : Buffer) (cols rows : nat)
    (runs : list TextChunk) (c : TextChunk) :
  extractStyledText buffer cols rows = runs ++ [c] ->
  text c <> text newline /\ trim (text c) <> [].
Proof.
  unfold Compositor.extractStyledText. cbv zeta. intros H.
  apply (f_equal (@rev TextChunk)) in H.
  rewrite rev_involutive, rev_app_distr in H. cbn [rev app] in H.
  apply popTrailing_head in H.
  apply orb_false_iff in H. destruct H as [Hnl Htrim].
  split.
  - intros Heq. unfold jseqb in Hnl.
    destruct (list_eq_dec N.eq_dec (text c) (text newline));
      [discriminate | contradiction].
  - intros Heq. rewrite Heq in Htrim. discriminate Htrim.
Qed.

End CompositorText.

(** ** Compositor: dimensions larger than the buffer *)

Section CompositorBounds.
Import Color Compositor.

Variable toString : RGBA -> string.
Variable createTextAttributes : TextAttributesOptions -> Z.

Local Abbreviation cellStep := (cellStep toString createTextAttributes).
Local Abbreviation rowStep := (rowStep toString createTextAttributes).
Local Abbreviation lineRuns := (lineRuns toString createTextAttributes).
Local Abbreviation extractStyledText :=
  (extractStyledText toString createTextAttributes).

Lemma fold_left_agree {A B : Type} (f g : A -> B -> A) (ys : list B) (a : A) :
  (forall a' y, In y ys -> f a' y = g a' y) ->
  fold_left f ys a = fold_left g ys a.
Proof.
  revert a. induction ys as [| y ys IH]; intros a H; simpl; [reflexivity |].
  rewrite (H a y) by (now left). apply IH. intros a' y' Hin.
  apply H. now right.
Qed.

Lemma cells_beyond_line (line : Line) (xs : list nat) (st : RowState) :
  (forall x, In x xs -> (List.length line <= x)%nat) ->
  fold_left (cellStep line) xs st = st.
Proof.
  revert st. induction xs as [| x xs IH]; intros st H; simpl; [reflexivity |].
  assert (Hx : getCell line x = None)
    by (apply nth_error_None, H; now left).
  unfold Compositor.cellStep at 2. rewrite Hx.
  apply IH. intros x' Hin. apply H. now right.
Qed.

Lemma columns_of_line (line : Line) (cols : nat) (st : RowState) :
  (List.length line <= cols)%nat ->
  fold_left (cellStep line) (seq 0 cols) st
  = fold_left (cellStep line) (seq 0 (List.length line)) st.
Proof.
  intros H.
  replace cols with (List.length line + (cols - List.length line))%nat at 1 by lia.
  rewrite seq_app, fold_left_app. apply cells_beyond_line.
  intros x Hin. apply in_seq in Hin. lia.
Qed.

Lemma rowStep_columns (buffer : Buffer) (cols cols' rows : nat)
    (acc : list TextChunk) (y : nat) :
  Forall (fun line => (List.length line <= cols)%nat) buffer ->
  Forall (fun line => (List.length line <= cols')%nat) buffer ->
  rowStep buffer cols rows acc y = rowStep buffer cols' rows acc y.
Proof.
  intros Hcols Hcols'. unfold Compositor.rowStep.
  destruct (getLine buffer y) as [line |] eqn:Hline; [| reflexivity].
  apply nth_error_In in Hline.
  rewrite Forall_forall in Hcols, Hcols'.
  rewrite (columns_of_line line cols) by (apply Hcols, Hline).
  rewrite (columns_of_line line cols') by (apply Hcols', Hline).
  reflexivity.
Qed.

(** X8: columns past the end of every line add nothing: any two widths
    that cover all lines of the buffer give the same runs. *)
Theorem extract_wide_enough (buffer : Buffer) (cols cols' rows : nat) :
  Forall (fun line => (List.length line <= cols)%nat) buffer ->
  Forall (fun line => (List.length line <= cols')%nat) buffer ->
  extractStyledText buffer cols rows = extractStyledText buffer cols' rows.
Proof.
  intros Hcols Hcols'. unfold Compositor.extractStyledText. cbv zeta.
  do 3 f_equal. apply fold_left_agree. intros acc y _.
  apply rowStep_columns; assumption.
Qed.

Lemma rows_beyond_buffer (buffer : Buffer) (cols rows : nat)
    (ys : list nat) (acc : list TextChunk) :
  (forall y, In y ys -> (List.length buffer <= y)%nat) ->
  fold_left (rowStep buffer cols rows) ys acc = acc.
Proof.
  revert acc. induction ys as [| y ys IH]; intros acc H; simpl;
    [reflexivity |].
  assert (Hy : getLine buffer y = None)
    by (apply nth_error_None, H; now left).
  unfold Compositor.rowStep at 2. rewrite Hy.
  apply IH. intros y' Hin. apply H. now right.
Qed.

Lemma rowStep_inner (buffer : Buffer) (cols rows rows' : nat)
    (acc : list TextChunk) (y : nat) :
  Z.of_nat y < Z.of_nat rows - 1 -> Z.of_nat y < Z.of_nat rows' - 1 ->
  rowStep buffer cols rows acc y = rowStep buffer cols rows' acc y.
Proof.
  intros H H'. unfold Compositor.rowStep.
  destruct (getLine buffer y); [| reflexivity].
  destruct (Z.ltb_spec (Z.of_nat y) (Z.of_nat rows - 1)); [| lia].
  destruct (Z.ltb_spec (Z.of_nat y) (Z.of_nat rows' - 1)); [| lia].
  reflexivity.
Qed.

Lemma popTrailing_newline (reversed : list TextChunk) :
  popTrailing (newline :: reversed) = popTrailing reversed.
Proof. reflexivity. Qed.

(** X9: rows past the end of the buffer add nothing, not even newlines:
    asking for more rows than the buffer has gives the runs of asking for
    exactly as many as it has. *)
Theorem extract_tall_enough (buffer : Buffer) (cols rows : nat) :
  (List.length buffer <= rows)%nat ->
  extractStyledText buffer cols rows
  = extractStyledText buffer cols (List.length buffer).
Proof.
  intros Hrows. unfold Compositor.extractStyledText. cbv zeta.
  replace rows with (List.length buffer + (rows - List.length buffer))%nat at 2 by lia.
  rewrite seq_app, fold_left_app.
  rewrite rows_beyond_buffer by (intros y Hin; apply in_seq in Hin; lia).
  destruct (List.length buffer) as [| m] eqn:Hlen; [reflexivity |].
  rewrite !seq_S, !fold_left_app. cbn [fold_left Nat.add].
  rewrite (fold_left_agree (rowStep buffer cols rows)
             (rowStep buffer cols (S m))).
  2:{ intros acc y Hin. apply in_seq in Hin.
      apply rowStep_inner; lia. }
  set (acc := fold_left (rowStep buffer cols (S m)) (seq 0 m) []).
  destruct (getLine buffer m) as [line |] eqn:Hline.
  2:{ apply nth_error_None in Hline. lia. }
  rewrite !(rowStep_app toString createTextAttributes buffer cols _ acc m line
              Hline).
  destruct (Z.ltb_spec (Z.of_nat m) (Z.of_nat (S m) - 1)); [lia |].
  destruct (Z.ltb_spec (Z.of_nat m) (Z.of_nat rows - 1)); [| reflexivity].
  rewrite app_nil_r, app_assoc, rev_app_distr. cbn [rev app].
  rewrite popTrailing_newline. reflexivity.
Qed.

End CompositorBounds.

Section CompositorMoreExamples.
Import Color Compositor.

Lemma extract_ends_in_text_witness :
  text (plainRun "b") <> text newline /\ trim (text (plainRun "b")) <> [].
Proof.
  apply (extract_ends_in_text channelsText textAttributes twoPlainRows 1 2
           [plainRun "a"; newline] (plainRun "b")).
  vm_compute. reflexivity.
Defined.

Lemma extract_wide_enough_witness :
  extractStyledText channelsText textAttributes [twoToneLine] 3 1
  = extractStyledText channelsText textAttributes [twoToneLine] 90 1.
Proof.
  apply extract_wide_enough;
    repeat constructor; unfold twoToneLine; simpl; lia.
Defined.

Lemma extract_tall_enough_witness :
  extractStyledText channelsText textAttributes twoPlainRows 1 20
  = extractStyledText channelsText textAttributes twoPlainRows 1
      (List.length twoPlainRows).
Proof. apply extract_tall_enough. simpl. lia. Defined.

End CompositorMoreExamples.

(** ** Input router and update scheduler: further behaviour *)

Section TerminalMore.
Import Terminal.
Local Open Scope string_scope.

(** X10: for return, backspace, the arrows and escape only the name of the
    key counts: two key events with the same such name are answered alike,
    whatever their modifiers and raw sequences. *)
Theorem named_keys_ignore_modifiers (st : State) (key key' : Key) :
  In (name key) namedKeys -> name key' = name key ->
  sendKey st key' = sendKey st key.
Proof.
  intros Hin Hname. unfold sendKey. rewrite Hname.
  destruct (stdinOf st); [| reflexivity].
  unfold namedKeys in Hin. cbn [In] in Hin.
  repeat (destruct Hin as [Hin | Hin];
          [rewrite <- Hin; cbn; rewrite !andb_false_r; reflexivity |]).
  contradiction.
Qed.

Lemma named_keys_ignore_modifiers_witness :
  sendKey mounted {| name := "up"; sequence := Some "x"; ctrl := Some true;
                     meta := Some true |}
  = sendKey mounted (plainKey "up").
Proof.
  apply named_keys_ignore_modifiers; [| reflexivity].
  right. right. left. reflexivity.
Defined.

(** X11: a key event with ctrl or meta held is dropped, raw sequence and
    all, unless its name is one of the named keys or it is Ctrl+C or
    Ctrl+D. *)
Theorem modified_keys_dropped (st : State) (key : Key) :
  flagSet (ctrl key) || flagSet (meta key) = true ->
  ~ In (name key) namedKeys ->
  (flagSet (ctrl key) = true -> name key <> "c" /\ name key <> "d") ->
  sendKey st key = st.
Proof.
  intros Hmod Hname Hctrl. unfold sendKey.
  destruct (stdinOf st); [| reflexivity].
  assert (Hc : flagSet (ctrl key) && (name key =? "c") = false).
  { destruct (flagSet (ctrl key)); [| reflexivity].
    apply String.eqb_neq. now apply Hctrl. }
  assert (Hd : flagSet (ctrl key) && (name key =? "d") = false).
  { destruct (flagSet (ctrl key)); [| reflexivity].
    apply String.eqb_neq. now apply Hctrl. }
  rewrite Hc, Hd.
  assert (Hn : forall n, In n namedKeys -> (name key =? n) = false).
  { intros n Hin. apply String.eqb_neq. intros Heq. apply Hname.
    now rewrite Heq. }
  rewrite !Hn by (unfold namedKeys; cbn [In]; tauto).
  destruct (sequence key) as [[| ? ?] |]; try reflexivity.
  destruct (flagSet (ctrl key)), (flagSet (meta key));
    try reflexivity; discriminate Hmod.
Qed.

Lemma modified_keys_dropped_witness :
  sendKey mounted {| name := "x"; sequence := Some "x"; ctrl := None;
                     meta := Some true |} = mounted.
Proof.
  apply modified_keys_dropped.
  - reflexivity.
  - unfold namedKeys. cbn [In name].
    intros H. repeat (destruct H as [H | H]; [discriminate H |]). exact H.
  - discriminate.
Defined.

(** X12: a stream of chunks that keeps coming at gaps below 16 ms starves
    the display: however long it lasts, the render function does not run
    during it, and a timer stays armed. *)
Theorem stream_starves_display (evs : list Event) (first : string)
    (more : list (nat * string)) :
  Forall (fun gd => (fst gd < 16)%nat) more ->
  displayed (run (run mounted evs) (burst first more))
  = displayed (run mounted evs)
  /\ exists id,
       pendingUpdate (run (run mounted evs) (burst first more)) = Some id.
Proof.
  intros Hall. set (st := run mounted evs).
  assert (Harmed : armed st) by apply armed_run, armed_mounted.
  destruct (onData_arms st first Harmed) as (Hp & Ht & Hc & _ & Hd).
  rewrite <- Hc in Ht.
  destruct (burst_rearms more (onData st first) _ Hp Ht Hall)
    as (id' & Hp' & _ & _ & _ & Hd').
  unfold burst. cbn [run fold_left step].
  change (fold_left step ?l ?s) with (run s l).
  rewrite Hd', Hd. split; [reflexivity | exists id'; exact Hp'].
Qed.

Lemma stream_starves_display_witness :
  displayed (run mounted (burst "a" [(15%nat, "b"); (15%nat, "c");
                                     (15%nat, "d")])) = [].
Proof.
  refine (proj1 (stream_starves_display [] "a"
                   [(15%nat, "b"); (15%nat, "c"); (15%nat, "d")] _)).
  repeat (constructor; [simpl; lia |]). constructor.
Defined.

Lemma dataCount_snoc (evs : list Event) (ev : Event) :
  dataCount (evs ++ [ev])
  = (dataCount evs + match ev with Data _ => 1 | _ => 0 end)%nat.
Proof.
  unfold dataCount. rewrite filter_app, length_app.
  destruct ev; reflexivity.
Qed.

(** What every state reached from the mounted component satisfies. *)
Lemma mounted_invariant (evs : list Event) :
  let st := run mounted evs in
  armed st
  /\ (pendingUpdate st = None -> settled st)
  /\ (List.length (displayed st)
      + match pendingUpdate st with Some _ => 1 | None => 0 end
      <= dataCount evs)%nat.
Proof.
  induction evs as [| ev evs IH] using rev_ind.
  - cbn. repeat split; [| lia]. intros _. left. split; reflexivity.
  - cbv zeta in *. unfold run in *. rewrite fold_left_app. cbn [fold_left].
    set (st := fold_left step evs mounted) in *.
    destruct IH as (Harmed & Hsettled & Hcount).
    rewrite dataCount_snoc.
    split; [apply armed_step, Harmed |].
    destruct ev as [d | ms | k |]; cbn [step].
    + destruct (onData_arms st d Harmed) as (Hp & _ & _ & _ & Hd).
      rewrite Hp, Hd. split; [discriminate |].
      destruct (pendingUpdate st); lia.
    + unfold armed in Harmed.
      destruct (pendingUpdate st) as [id |] eqn:Hp.
      * destruct Harmed as [due Ht].
        destruct (Z.le_gt_cases due (clock st + Z.of_nat ms)) as [Hle | Hgt].
        -- rewrite (elapse_fire st ms id due Ht Hle).
           cbn [pendingUpdate displayed term withClock timerCallback
                updateDisplay withPending withDisplayed withTimers clock].
           split.
           ++ intros _. right. eexists _, _. reflexivity.
           ++ rewrite length_app. simpl. lia.
        -- rewrite (elapse_wait st ms id due Ht Hgt).
           cbn [pendingUpdate displayed withClock withTimers]. rewrite Hp.
           split; [discriminate | lia].
      * rewrite (elapse_idle st ms Harmed).
        cbn [pendingUpdate displayed withClock withTimers]. rewrite Hp.
        split; [| lia]. intros _. exact (Hsettled eq_refl).
    + destruct (sendKey_shape st k) as [-> | [p ->]].
      * split; [exact Hsettled | lia].
      * cbn [pendingUpdate displayed withProcess].
        split; [exact Hsettled | lia].
    + cbn [pendingUpdate displayed onProcExit].
      split; [exact Hsettled | lia].
Qed.

(** X13: whenever no update is pending, the display is up to date: either
    nothing was ever written to the terminal, or the content was last set
    from the terminal exactly as it is now. *)
Theorem display_settles (evs : list Event) :
  pendingUpdate (run mounted evs) = None -> settled (run mounted evs).
Proof. apply (mounted_invariant evs). Qed.

Lemma display_settles_witness :
  settled (run mounted [Data "a"; Elapse 5; Data "b"; Elapse 16]).
Proof. apply display_settles. reflexivity. Defined.

(** X14: the render function runs at most once per chunk received: the
    number of renders never exceeds the number of data events. *)
Theorem renders_bounded_by_data (evs : list Event) :
  (List.length (displayed (run mounted evs)) <= dataCount evs)%nat.
Proof.
  destruct (mounted_invariant evs) as (_ & _ & H). lia.
Qed.

End TerminalMore.

(** ** The supervisor: what reaches the caller, and who gets a restart *)

Section SupervisorMore.
Import Js Supervisor.
Local Open Scope string_scope.
Local Open Scope Z_scope.

Lemma run_data_passthrough (env : Env) (ds : list (Z * string))
    (p : option Pty) (buffer : string) (start : Z) (retried : bool) :
  negb retried && truthy (originalSessionId env) && (resumeIndex env >=? 0)
  = false ->
  run env {| ptyProcess := p; outputBuffer := buffer; startTime := start;
             hasRetried := retried |} (dataEvents ds)
  = ({| ptyProcess := p;
        outputBuffer := buffer ++ emitted (filter (inWindow start) ds);
        startTime := start; hasRetried := retried |},
     map (fun d => StdoutWrite (snd d)) ds).
Proof.
  intros Hcond. revert buffer.
  induction ds as [| [t data] ds IH]; intros buffer.
  - simpl. now rewrite append_nil_r.
  - cbn [dataEvents map run step fst snd filter]. unfold onData.
    cbn [startTime hasRetried outputBuffer ptyProcess].
    change (t - start <? 2000) with (inWindow start (t, data)).
    rewrite Hcond.
    destruct (inWindow start (t, data));
      cbn [existsb isProcessExit orb]; fold (dataEvents ds); rewrite IH.
    + cbn [emitted fold_right snd app].
      fold (emitted (filter (inWindow start) ds)).
      now rewrite append_assoc.
    + reflexivity.
Qed.

(** X15: a supervisor that has already retried, and one whose session was
    not started with [--resume] and an id, never holds output back: every
    chunk reaches the caller as it arrives, in order, inside the window as
    well as after it. *)
Theorem output_passes_through (env : Env) (st : State)
    (ds : list (Z * string)) :
  hasRetried st = true \/ resumeIndex env < 0
  \/ truthy (originalSessionId env) = false ->
  snd (run env st (dataEvents ds)) = map (fun d => StdoutWrite (snd d)) ds
  /\ forwarded (snd (run env st (dataEvents ds))) = emitted ds.
Proof.
  intros Hcase. destruct st as [p buffer start retried].
  cbn [hasRetried] in Hcase.
  rewrite (run_data_passthrough env ds p buffer start retried).
  - cbn [snd]. split; [reflexivity | apply forwarded_writes].
  - destruct Hcase as [-> | [Hidx | Hid]].
    + reflexivity.
    + destruct (Z.geb_spec (resumeIndex env) 0); [lia |].
      now rewrite andb_false_r.
    + rewrite Hid. now rewrite andb_false_r.
Qed.

Lemma output_passes_through_witness :
  forwarded (snd (run newSessionEnv (fst (boot newSessionEnv 0))
                      (dataEvents [(100, "hello"); (2500, "world")])))
  = "helloworld".
Proof.
  refine (proj2 (output_passes_through newSessionEnv
                   (fst (boot newSessionEnv 0))
                   [(100, "hello"); (2500, "world")] _)).
  right. left. vm_compute. reflexivity.
Defined.

Lemma run_app_alive (env : Env) (evs1 evs2 : list Event) (st : State) :
  existsb isProcessExit (snd (run env st evs1)) = false ->
  run env st (evs1 ++ evs2)
  = (fst (run env (fst (run env st evs1)) evs2),
     (snd (run env st evs1) ++ snd (run env (fst (run env st evs1)) evs2))%list).
Proof.
  revert st. induction evs1 as [| ev evs1 IH]; intros st Halive.
  - cbn [run app fst snd]. destruct (run env st evs2); reflexivity.
  - cbn [app run] in *.
    destruct (step env st ev) as [st1 out].
    destruct (existsb isProcessExit out) eqn:Hout.
    + cbn [snd] in Halive. congruence.
    + specialize (IH st1).
      destruct (run env st1 evs1) as [st2 out2]. cbn [fst snd] in *.
      rewrite existsb_app, Hout in Halive. cbn [orb] in Halive.
      rewrite (IH Halive).
      destruct (run env st2 evs2) as [st3 out3]. cbn [fst snd].
      now rewrite app_assoc.
Qed.

Lemma filter_allInWindow (start : Z) (ds : list (Z * string)) :
  allInWindow start ds ->
  filter (inWindow start) ds = ds
  /\ filter (fun d => negb (inWindow start d)) ds = [].
Proof.
  induction 1 as [| d ds Hd _ [IH1 IH2]]; [split; reflexivity |].
  cbn [filter]. rewrite Hd, IH1, IH2. split; reflexivity.
Qed.

Lemma existsb_writes (ds : list (Z * string)) :
  existsb isProcessExit (map (fun d => StdoutWrite (snd d)) ds) = false.
Proof. induction ds as [| d ds IH]; [reflexivity | exact IH]. Qed.

(** X16: a failed resume is silent. In a resume session whose child prints
    the signature inside the window and exits inside it with a non-zero
    status, nothing of the failed attempt reaches the caller; the child is
    started a second time, and everything the second child prints, from
    its first chunk on, reaches the caller in order. *)
Theorem failed_resume_is_silent (env : Env) (t0 : Z)
    (ds1 ds2 : list (Z * string)) (x : ExitInfo) :
  resumeMode env ->
  allInWindow t0 ds1 -> signature (emitted ds1) ->
  exitCode x <> 0 -> now x - t0 < 2000 ->
  let out := snd (session env t0
                    (dataEvents ds1 ++ PtyExit x :: dataEvents ds2)) in
  out = ([Spawn (command env) (cmdArgs env) (cwd env)]
         ++ persist env (fs x) (markerOf env x)
         ++ [Spawn (command env) ["--session-id"; uuid x] (cwd env)]
         ++ map (fun d => StdoutWrite (snd d)) ds2)%list
  /\ forwarded out = emitted ds2.
Proof.
  intros Hmode Hwin Hsig Hcode Hnow out.
  assert (Hout : out = ([Spawn (command env) (cmdArgs env) (cwd env)]
         ++ persist env (fs x) (markerOf env x)
         ++ [Spawn (command env) ["--session-id"; uuid x] (cwd env)]
         ++ map (fun d => StdoutWrite (snd d)) ds2)%list).
  { unfold out, session, boot, startPty.
    destruct (filter_allInWindow t0 ds1 Hwin) as [Hin Hout].
    pose proof (run_data_resume env ds1
                  (Some {| file := command env; argv := cmdArgs env;
                           dir := cwd env |}) "" t0 Hmode) as Hrun1.
    rewrite Hin, Hout in Hrun1. cbn [map append] in Hrun1.
    cbn [outputBuffer startTime hasRetried ptyProcess].
    rewrite run_app_alive by (rewrite Hrun1; reflexivity).
    rewrite Hrun1. cbn [fst snd app run step].
    rewrite onExit_retry; try assumption; try reflexivity.
    2:{ apply Hmode. }
    assert (Halive : existsb isProcessExit
              (persist env (fs x) (markerOf env x)
               ++ [Spawn (command env) ["--session-id"; uuid x] (cwd env)])
            = false) by (destruct (fs x); reflexivity).
    rewrite Halive. unfold restarted.
    rewrite (run_data_passthrough env ds2) by reflexivity.
    rewrite <- app_assoc. reflexivity. }
  split; [exact Hout |]. rewrite Hout.
  cbn [app forwarded].
  assert (Hskip : forall a b,
            forwarded (persist env (fs x) (markerOf env x) ++ a :: b)%list
            = forwarded (a :: b)) by (intros; destruct (fs x); reflexivity).
  rewrite Hskip. cbn [forwarded]. apply forwarded_writes.
Qed.

Lemma failed_resume_is_silent_witness :
  forwarded (snd (session resumeEnv 0
       (dataEvents [(300, "No conversation found")]
        ++ PtyExit quickFailure :: dataEvents [(600, "Welcome")])))
  = "Welcome".
Proof.
  refine (proj2 (failed_resume_is_silent resumeEnv 0
                   [(300, "No conversation found")] [(600, "Welcome")]
                   quickFailure _ _ _ _ _)).
  - exact resumeEnv_resumeMode.
  - repeat constructor.
  - left. reflexivity.
  - discriminate.
  - reflexivity.
Defined.

Lemma forwarded_app (a b : list Effect) :
  forwarded (a ++ b) = forwarded a ++ forwarded b.
Proof.
  induction a as [| e a IH]; [reflexivity |].
  destruct e; cbn [app forwarded]; rewrite ?IH, ?append_assoc; reflexivity.
Qed.

(** X17: the fallback does not ask for [--resume]. In a session started
    with [--session-id] and an id, the output is shown as it arrives; yet
    if the child prints the signature and exits inside the window with a
    non-zero status, it is started a second time under a fresh id, and
    the caller has by then received the output of both children. *)
Theorem new_session_fallback (env : Env) (t0 : Z)
    (ds1 ds2 : list (Z * string)) (x : ExitInfo) :
  resumeIndex env < 0 -> truthy (originalSessionId env) = true ->
  allInWindow t0 ds1 -> signature (emitted ds1) ->
  exitCode x <> 0 -> now x - t0 < 2000 ->
  let out := snd (session env t0
                    (dataEvents ds1 ++ PtyExit x :: dataEvents ds2)) in
  out = ([Spawn (command env) (cmdArgs env) (cwd env)]
         ++ map (fun d => StdoutWrite (snd d)) ds1
         ++ persist env (fs x) (markerOf env x)
         ++ [Spawn (command env) ["--session-id"; uuid x] (cwd env)]
         ++ map (fun d => StdoutWrite (snd d)) ds2)%list
  /\ forwarded out = emitted ds1 ++ emitted ds2.
Proof.
  intros Hidx Hid Hwin Hsig Hcode Hnow out.
  assert (Hout : out = ([Spawn (command env) (cmdArgs env) (cwd env)]
         ++ map (fun d => StdoutWrite (snd d)) ds1
         ++ persist env (fs x) (markerOf env x)
         ++ [Spawn (command env) ["--session-id"; uuid x] (cwd env)]
         ++ map (fun d => StdoutWrite (snd d)) ds2)%list).
  { unfold out, session, boot, startPty.
    destruct (filter_allInWindow t0 ds1 Hwin) as [Hin _].
    assert (Hcond : negb false && truthy (originalSessionId env)
                    && (resumeIndex env >=? 0) = false).
    { destruct (Z.geb_spec (resumeIndex env) 0); [lia |].
      now rewrite andb_false_r. }
    pose proof (run_data_passthrough env ds1
                  (Some {| file := command env; argv := cmdArgs env;
                           dir := cwd env |}) "" t0 false Hcond) as Hrun1.
    rewrite Hin in Hrun1. cbn [append] in Hrun1.
    cbn [outputBuffer startTime hasRetried ptyProcess].
    rewrite run_app_alive by (rewrite Hrun1; apply existsb_writes).
    rewrite Hrun1. cbn [fst snd app run step].
    rewrite onExit_retry; try assumption; try reflexivity.
    assert (Halive : existsb isProcessExit
              (persist env (fs x) (markerOf env x)
               ++ [Spawn (command env) ["--session-id"; uuid x] (cwd env)])
            = false) by (destruct (fs x); reflexivity).
    rewrite Halive. unfold restarted.
    rewrite (run_data_passthrough env ds2) by reflexivity.
    cbn [fst snd]. rewrite <- !app_assoc. reflexivity. }
  split; [exact Hout |]. rewrite Hout.
  cbn [app forwarded]. rewrite forwarded_app, forwarded_writes.
  f_equal.
  assert (Hskip : forall a b,
            forwarded (persist env (fs x) (markerOf env x) ++ a :: b)%list
            = forwarded (a :: b)) by (intros; destruct (fs x); reflexivity).
  rewrite Hskip. cbn [forwarded]. apply forwarded_writes.
Qed.

Lemma new_session_fallback_witness :
  forwarded (snd (session newSessionEnv 0
       (dataEvents [(300, "No conversation found")]
        ++ PtyExit quickFailure :: dataEvents [(600, "Welcome")])))
  = "No conversation foundWelcome".
Proof.
  refine (proj2 (new_session_fallback newSessionEnv 0
                   [(300, "No conversation found")] [(600, "Welcome")]
                   quickFailure _ _ _ _ _ _)).
  - vm_compute. reflexivity.
  - reflexivity.
  - repeat constructor.
  - left. reflexivity.
  - discriminate.
  - reflexivity.
Defined.

Lemma step_starts_nothing (env : Env) (st : State) (ev : Event) :
  truthy (originalSessionId env) = false ->
  count isSpawn (snd (step env st ev)) = 0%nat
  /\ count isWriteFile (snd (step env st ev)) = 0%nat.
Proof.
  intros Hid. destruct ev as [t data | x | data |]; cbn [step].
  - unfold onData. rewrite Hid, andb_false_r.
    destruct (t - startTime st <? 2000); split; reflexivity.
  - unfold onExit. rewrite Hid, andb_false_r. split; reflexivity.
  - unfold onStdin. destruct (ptyProcess st); split; reflexivity.
  - unfold onSignal. destruct (ptyProcess st); split; reflexivity.
Qed.

(** X18: without a session id on the command line (no [--resume] and no
    [--session-id], or the flag with nothing after it) the supervisor
    never restarts the child and never writes the marker: every exit of
    the child ends it with the child's status, and a whole session holds
    exactly one spawn. *)
Theorem no_session_id_no_restart (env : Env) :
  truthy (originalSessionId env) = false ->
  (forall st x, onExit env st x = (st, [ProcessExit (exitCode x)]))
  /\ (forall t0 evs,
        count isSpawn (snd (session env t0 evs)) = 1%nat
        /\ count isWriteFile (snd (session env t0 evs)) = 0%nat).
Proof.
  intros Hid. split.
  - intros st x. unfold onExit. now rewrite Hid, andb_false_r.
  - intros t0 evs. unfold session, boot, startPty.
    assert (Hrun : forall evs st,
              count isSpawn (snd (run env st evs)) = 0%nat
              /\ count isWriteFile (snd (run env st evs)) = 0%nat).
    { clear evs. induction evs as [| ev evs IH]; intros st.
      - split; reflexivity.
      - cbn [run]. pose proof (step_starts_nothing env st ev Hid) as Hstep.
        destruct (step env st ev) as [st1 out]. cbn [snd] in Hstep.
        destruct (existsb isProcessExit out); [exact Hstep |].
        specialize (IH st1). destruct (run env st1 evs) as [st2 out2].
        cbn [snd] in *. rewrite !count_app. lia. }
    match goal with
    | |- context [run env ?s evs] =>
      specialize (Hrun evs s); destruct (run env s evs) as [st1 out1]
    end.
    cbn [snd] in *. rewrite !count_app.
    destruct Hrun as [-> ->]. split; reflexivity.
Qed.

Lemma no_session_id_no_restart_witness :
  count isSpawn
    (snd (session shellEnv 0
            [PtyData 10 "No conversation found"; PtyExit quickFailure]))
  = 1%nat.
Proof.
  apply (proj2 (no_session_id_no_restart shellEnv eq_refl) 0).
Defined.

End SupervisorMore.

(** ** From the dashboard to the helper and back *)

Section DashboardFacts.
Import Js Supervisor Dashboard.
Local Open Scope string_scope.
Local Open Scope Z_scope.

Lemma mapAt_hit {A : Type} (f : A -> A) (l : list A) (i : nat) (x : A) :
  nth_error l i = Some x -> nth_error (mapAt f i l) i = Some (f x).
Proof.
  revert i. induction l as [| y l IH]; intros [| i] H; try discriminate H.
  - injection H as ->. reflexivity.
  - simpl. apply IH. exact H.
Qed.

Lemma mapAt_miss {A : Type} (f : A -> A) (l : list A) (i j : nat) :
  i <> j -> nth_error (mapAt f i l) j = nth_error l j.
Proof.
  revert i j. induction l as [| y l IH]; intros [| i] [| j] H;
    try reflexivity; try contradiction.
  simpl. apply IH. congruence.
Qed.

Lemma dashboard_args_id (tab : Tab) (claudePath : option string)
    (pcwd home sid : string) :
  sessionId tab = Some sid -> sid <> "" -> isSet (isNewSession tab) = false ->
  resumeMode (helperEnv tab claudePath pcwd home)
  /\ originalSessionId (helperEnv tab claudePath pcwd home) = Some sid.
Proof.
  intros Hsid Hne Hnew.
  unfold resumeMode, originalSessionId, resumeIndex, sessionIdIndex.
  change (cmdArgs (helperEnv tab claudePath pcwd home))
    with (terminalArgs tab).
  unfold terminalArgs. rewrite Hsid, Hnew.
  destruct sid as [| c sid]; [contradiction |].
  cbn. repeat split; discriminate.
Qed.

(** X19: the arguments the dashboard builds reach the helper as meant. For
    a tab with a session id, a tab not marked new makes the helper a
    resume session for exactly that id; a tab marked new makes it a
    session without [--resume] that still knows the id (unless the id is
    itself the text [--resume]). *)
Theorem dashboard_args_reach_helper (tab : Tab) (claudePath : option string)
    (pcwd home sid : string) :
  sessionId tab = Some sid -> sid <> "" ->
  let env := helperEnv tab claudePath pcwd home in
  cmdArgs env = terminalArgs tab
  /\ (isSet (isNewSession tab) = false ->
      resumeMode env /\ originalSessionId env = Some sid)
  /\ (isSet (isNewSession tab) = true -> sid <> "--resume" ->
      resumeIndex env < 0 /\ originalSessionId env = Some sid).
Proof.
  intros Hsid Hne env.
  assert (Hargs : cmdArgs env = terminalArgs tab) by reflexivity.
  split; [exact Hargs |].
  unfold resumeMode, originalSessionId, resumeIndex, sessionIdIndex.
  rewrite Hargs. unfold terminalArgs. rewrite Hsid.
  destruct sid as [| c sid]; [contradiction |].
  split.
  - intros ->. cbn. repeat split; discriminate.
  - intros -> Hnot. unfold indexOf. cbn [indexOfFrom isSet].
    change (String.eqb "--session-id" "--resume") with false.
    change (String.eqb "--session-id" "--session-id") with true.
    cbv iota.
    destruct (String.eqb_spec (String c sid) "--resume") as [? | _];
      [contradiction |].
    cbn. split; [reflexivity | reflexivity].
Qed.

Lemma dashboard_args_reach_helper_witness :
  resumeMode (helperEnv restoredTab None "/" "/home/u")
  /\ originalSessionId (helperEnv restoredTab None "/" "/home/u")
     = Some "old-id".
Proof.
  apply (proj1 (proj2 (dashboard_args_reach_helper restoredTab None "/"
                         "/home/u" "old-id" eq_refl ltac:(discriminate)))).
  reflexivity.
Defined.

Lemma sessionUpdatePath_agrees (tab : Tab) (claudePath : option string)
    (pcwd home : string) :
  sessionUpdateFile (helperEnv tab claudePath pcwd home)
  = sessionUpdatePath home.
Proof.
  unfold sessionUpdateFile, sessionUpdateDir, sessionUpdatePath.
  cbn [homedir helperEnv]. rewrite append_assoc. reflexivity.
Qed.

Lemma opt_string_eqb_refl (a : option string) :
  Compositor.opt_string_eqb a a = true.
Proof. destruct a; [apply String.eqb_refl | reflexivity]. Qed.

(** X20: the marker closes the loop. When the helper of a resume tab falls
    back and the file system takes the marker, the marker lands in the
    file the dashboard reads; and when the dashboard's exit callback reads
    it less than 30000 ms after it was stamped, the tab takes over the
    fresh id, is no longer marked new, is closed, and the file is removed
    if it can be: the next start of the tab resumes the fresh session. *)
Theorem fallback_marker_round_trip (tabs : list Tab) (index : nat) (tab : Tab)
    (claudePath : option string) (pcwd home sid : string)
    (st : State) (x : ExitInfo) (later : Z) (unlinkOk : bool) :
  nth_error tabs index = Some tab ->
  sessionId tab = Some sid -> sid <> "" -> isSet (isNewSession tab) = false ->
  exitCode x <> 0 -> now x - startTime st < 2000 ->
  signature (outputBuffer st) -> hasRetried st = false ->
  fs x = Written -> later - stampNow x < 30000 ->
  let env := helperEnv tab claudePath pcwd home in
  In (WriteFile (sessionUpdatePath home) (markerOf env x))
     (snd (onExit env st x))
  /\ exists tab',
       nth_error (fst (onTerminalExit tabs index tab (Holds (markerOf env x))
                                      later unlinkOk)) index = Some tab'
       /\ sessionId tab' = Some (uuid x)
       /\ isNewSession tab' = Some false
       /\ isTerminalOpen tab' = Some false
       /\ (uuid x <> "" -> terminalArgs tab' = ["--resume"; uuid x])
       /\ (unlinkOk = true ->
           snd (onTerminalExit tabs index tab (Holds (markerOf env x))
                               later unlinkOk) = Absent).
Proof.
  intros Hnth Hsid Hne Hnew Hcode Hwin Hsig Hretry Hfs Hlater env.
  subst env.
  destruct (dashboard_args_id tab claudePath pcwd home sid Hsid Hne Hnew)
    as [Hmode Hid].
  split.
  - rewrite onExit_retry; try assumption.
    2:{ apply Hmode. }
    cbn [snd]. rewrite Hfs. cbn [persist app].
    left. f_equal. apply sessionUpdatePath_agrees.
  - unfold onTerminalExit. cbn [markerOf oldSessionId timestamp newSessionId].
    rewrite Hid, Hsid, opt_string_eqb_refl.
    destruct (Z.ltb_spec (later - stampNow x) 30000) as [_ | ?]; [| lia].
    cbn [andb fst snd]. exists (adopted (uuid x) tab).
    split; [apply mapAt_hit, Hnth |].
    repeat split.
    + intros Hu. unfold terminalArgs. cbn [sessionId adopted isNewSession isSet].
      destruct (uuid x); [contradiction | reflexivity].
    + intros ->. reflexivity.
Qed.

Lemma fallback_marker_round_trip_witness :
  let env := helperEnv restoredTab None "/" "/home/u" in
  exists tab',
    nth_error (fst (onTerminalExit [restoredTab] 0 restoredTab
                      (Holds (markerOf env quickFailure)) 1000 true)) 0
    = Some tab'
    /\ sessionId tab' = Some (uuid quickFailure)
    /\ isNewSession tab' = Some false
    /\ isTerminalOpen tab' = Some false
    /\ (uuid quickFailure <> "" ->
        terminalArgs tab' = ["--resume"; uuid quickFailure])
    /\ (true = true ->
        snd (onTerminalExit [restoredTab] 0 restoredTab
               (Holds (markerOf env quickFailure)) 1000 true) = Absent).
Proof.
  intros env.
  refine (proj2 (fallback_marker_round_trip [restoredTab] 0 restoredTab None
                   "/" "/home/u" "old-id" failedResume quickFailure 1000 true
                   _ _ _ _ _ _ _ _ _ _)).
  - reflexivity.
  - reflexivity.
  - discriminate.
  - reflexivity.
  - discriminate.
  - reflexivity.
  - left. reflexivity.
  - reflexivity.
  - reflexivity.
  - reflexivity.
Defined.

(** X21: a marker that is missing, unreadable, written for another
    session, or stamped 30000 ms ago or more is ignored and left where it
    is: the tab keeps its session id, is closed and is no longer marked
    new. *)
Theorem stale_marker_ignored (tabs : list Tab) (index : nat) (tab : Tab)
    (file : MarkerFile) (later : Z) (unlinkOk : bool) :
  nth_error tabs index = Some tab ->
  (forall m, file = Holds m ->
     oldSessionId m <> sessionId tab \/ 30000 <= later - timestamp m) ->
  snd (onTerminalExit tabs index tab file later unlinkOk) = file
  /\ exists tab',
       nth_error (fst (onTerminalExit tabs index tab file later unlinkOk))
                 index = Some tab'
       /\ sessionId tab' = sessionId tab
       /\ isNewSession tab' = Some false
       /\ isTerminalOpen tab' = Some false.
Proof.
  intros Hnth Hstale.
  assert (Hgo : onTerminalExit tabs index tab file later unlinkOk
                = (updateTab tabs index closed, file)).
  { unfold onTerminalExit. destruct file as [| | m]; try reflexivity.
    destruct (Hstale m eq_refl) as [Hother | Hold].
    - destruct (Compositor.opt_string_eqb (oldSessionId m) (sessionId tab))
        eqn:Heq; [| reflexivity].
      apply opt_string_eqb_eq in Heq. contradiction.
    - destruct (Z.ltb_spec (later - timestamp m) 30000); [lia |].
      now rewrite andb_false_r. }
  rewrite Hgo. cbn [fst snd]. split; [reflexivity |].
  exists (closed tab). split; [apply mapAt_hit, Hnth |].
  repeat split.
Qed.

Lemma stale_marker_ignored_witness :
  snd (onTerminalExit [restoredTab] 0 restoredTab
         (Holds (markerOf resumeEnv quickFailure)) 40000 true)
  = Holds (markerOf resumeEnv quickFailure).
Proof.
  refine (proj1 (stale_marker_ignored [restoredTab] 0 restoredTab
                   (Holds (markerOf resumeEnv quickFailure)) 40000 true _ _)).
  - reflexivity.
  - intros m H. injection H as <-. right. vm_compute. discriminate.
Defined.

(** X22: a tab's first start names a new session, every later start
    resumes it. Opening a tab without a session id gives the terminal
    [--session-id] with the generated id; after the terminal has exited
    with no marker to read, opening the tab again gives [--resume] with
    that same id, and no new id is taken. *)
Theorem session_lifecycle (tabs : list Tab) (index : nat) (tab : Tab)
    (fresh fresh' : string) (file : MarkerFile) (later : Z)
    (unlinkOk : bool) :
  nth_error tabs index = Some tab ->
  path tab <> "" -> truthy (sessionId tab) = false -> fresh <> "" ->
  (forall m, file <> Holds m) ->
  let tabs1 := openClaudeCode tabs index fresh in
  exists tab1,
    nth_error tabs1 index = Some tab1
    /\ terminalArgs tab1 = ["--session-id"; fresh]
    /\ let tabs2 := fst (onTerminalExit tabs1 index tab1 file later unlinkOk) in
       let tabs3 := openClaudeCode tabs2 index fresh' in
       exists tab3,
         nth_error tabs3 index = Some tab3
         /\ terminalArgs tab3 = ["--resume"; fresh].
Proof.
  intros Hnth Hpath Hnone Hfresh Hfile tabs1.
  assert (Htruthy : truthy (Some (path tab)) = true)
    by (destruct (path tab); [contradiction | reflexivity]).
  assert (Hid : orElse (sessionId tab) fresh = fresh).
  { destruct (sessionId tab) as [[| ? ?] |]; try reflexivity.
    discriminate Hnone. }
  assert (H1 : tabs1 = updateTab tabs index (opened fresh true)).
  { unfold tabs1, openClaudeCode. rewrite Hnth, Htruthy, Hnone, Hid.
    reflexivity. }
  exists (opened fresh true tab).
  split; [rewrite H1; apply mapAt_hit, Hnth |].
  split.
  { unfold terminalArgs. cbn [sessionId opened isNewSession isSet].
    destruct fresh; [contradiction | reflexivity]. }
  cbv zeta.
  assert (H2 : fst (onTerminalExit tabs1 index (opened fresh true tab) file
                      later unlinkOk)
               = updateTab tabs1 index closed).
  { unfold onTerminalExit. destruct file as [| | m]; try reflexivity.
    exfalso. exact (Hfile m eq_refl). }
  rewrite H2.
  assert (Hnth2 : nth_error (updateTab tabs1 index closed) index
                  = Some (closed (opened fresh true tab)))
    by (apply mapAt_hit; rewrite H1; apply mapAt_hit, Hnth).
  exists (opened fresh false (closed (opened fresh true tab))).
  split.
  - unfold openClaudeCode. rewrite Hnth2.
    cbn [path closed opened sessionId]. rewrite Htruthy.
    destruct fresh as [| c fresh]; [contradiction |].
    cbn [truthy negb orElse]. apply mapAt_hit, Hnth2.
  - unfold terminalArgs. cbn [sessionId opened isNewSession isSet].
    destruct fresh; [contradiction | reflexivity].
Qed.

Lemma session_lifecycle_witness :
  exists tab1,
    nth_error (openClaudeCode [freshTab] 0 "id-1") 0 = Some tab1
    /\ terminalArgs tab1 = ["--session-id"; "id-1"]
    /\ exists tab3,
         nth_error (openClaudeCode
                      (fst (onTerminalExit (openClaudeCode [freshTab] 0 "id-1")
                              0 tab1 Absent 5000 true)) 0 "id-2") 0
         = Some tab3
         /\ terminalArgs tab3 = ["--resume"; "id-1"].
Proof.
  refine (session_lifecycle [freshTab] 0 freshTab "id-1" "id-2" Absent 5000
            true _ _ _ _ _).
  - reflexivity.
  - discriminate.
  - reflexivity.
  - discriminate.
  - discriminate.
Defined.

End DashboardFacts.

(** ** The process tracker *)

Section TrackerFacts.
Import Compositor Tracker.

Lemma jseqb_eq (a b : jsstring) : jseqb a b = true <-> a = b.
Proof.
  unfold jseqb. destruct (list_eq_dec N.eq_dec a b); split;
    congruence || discriminate.
Qed.

Lemma jseqb_refl (a : jsstring) : jseqb a a = true.
Proof. now apply jseqb_eq. Qed.

Lemma jseqb_neq (a b : jsstring) : a <> b -> jseqb a b = false.
Proof.
  intros H. destruct (jseqb a b) eqn:E; [| reflexivity].
  apply jseqb_eq in E. contradiction.
Qed.

Lemma get_set_same (m : ProcessMap) (k : jsstring) (v : list ClaudeProcess) :
  get (set m k v) k = Some v.
Proof.
  induction m as [| [k' v'] m IH]; cbn [set get].
  - now rewrite jseqb_refl.
  - destruct (jseqb k' k) eqn:E; cbn [get]; rewrite E; [reflexivity | exact IH].
Qed.

Lemma get_set_other (m : ProcessMap) (k k' : jsstring)
    (v : list ClaudeProcess) :
  k <> k' -> get (set m k v) k' = get m k'.
Proof.
  intros Hne. induction m as [| [k0 v0] m IH]; cbn [set get].
  - now rewrite jseqb_neq.
  - destruct (jseqb k0 k) eqn:E; cbn [get].
    + apply jseqb_eq in E. subst k0. now rewrite jseqb_neq.
    + now rewrite IH.
Qed.

Lemma keys_set (m : ProcessMap) (k : jsstring) (v : list ClaudeProcess) :
  (In k (keys m) /\ keys (set m k v) = keys m)
  \/ (~ In k (keys m) /\ keys (set m k v) = keys m ++ [k]).
Proof.
  unfold keys. induction m as [| [k0 v0] m IH]; cbn [set map fst].
  - right. split; [tauto | reflexivity].
  - destruct (jseqb k0 k) eqn:E; cbn [map fst].
    + apply jseqb_eq in E. subst k0. left. split; [now left | reflexivity].
    + assert (Hne : k0 <> k)
        by (intros ->; rewrite jseqb_refl in E; discriminate).
      destruct IH as [[Hin Heq] | [Hout Heq]].
      * left. split; [now right | now rewrite Heq].
      * right. split; [intros [? | ?]; contradiction |].
        cbn [app]. now rewrite Heq.
Qed.

Lemma NoDup_keys_set (m : ProcessMap) (k : jsstring)
    (v : list ClaudeProcess) :
  NoDup (keys m) -> NoDup (keys (set m k v)).
Proof.
  intros H. destruct (keys_set m k v) as [[_ ->] | [Hout ->]]; [exact H |].
  apply NoDup_app; [exact H | repeat constructor; intros [] |].
  intros a Ha [<- | []]. contradiction.
Qed.

Lemma getProcessCwd_nonempty (lsof : Z -> option jsstring) (p : Z)
    (c : jsstring) :
  getProcessCwd lsof p = Some c -> c <> [].
Proof.
  unfold getProcessCwd. destruct (lsof p) as [result |]; [| discriminate].
  cbv zeta. destruct (trim result) as [| u t]; cbn [nonempty];
    [discriminate |].
  intros H. injection H as <-. discriminate.
Qed.

Lemma addPid_keys (lsof : Z -> option jsstring) (m : ProcessMap) (p : Z) :
  NoDup (keys m) -> NoDup (keys (addPid lsof m p)).
Proof.
  intros H. unfold addPid.
  destruct (getProcessCwd lsof p) as [[| u t] |]; try exact H.
  apply NoDup_keys_set, H.
Qed.

Lemma addPid_get (lsof : Z -> option jsstring) (m : ProcessMap) (p : Z)
    (dir : jsstring) :
  get (addPid lsof m p) dir = extend (get m dir) (inDirectory lsof dir [p]).
Proof.
  unfold addPid, inDirectory. cbn [filter].
  destruct (getProcessCwd lsof p) as [c |] eqn:Hc.
  2:{ cbn [map]. destruct (get m dir); cbn [extend];
        [now rewrite app_nil_r | reflexivity]. }
  pose proof (getProcessCwd_nonempty lsof p c Hc) as Hne.
  destruct c as [| u t]; [contradiction |]. cbv beta iota zeta.
  destruct (jseqb (u :: t) dir) eqn:E.
  - apply jseqb_eq in E. subst dir. rewrite get_set_same. cbn [map].
    destruct (get m (u :: t)); reflexivity.
  - rewrite get_set_other
      by (intros Heq; rewrite Heq, jseqb_refl in E; discriminate).
    cbn [map]. destruct (get m dir); cbn [extend];
      [now rewrite app_nil_r | reflexivity].
Qed.

Lemma extend_extend (o : option (list ClaudeProcess))
    (l l' : list ClaudeProcess) :
  extend (extend o l) l' = extend o (l ++ l').
Proof.
  destruct o as [v |]; cbn [extend]; [now rewrite app_assoc |].
  destruct l; cbn [extend app]; reflexivity.
Qed.

Lemma inDirectory_cons (lsof : Z -> option jsstring) (dir : jsstring)
    (p : Z) (l : list Z) :
  inDirectory lsof dir (p :: l)
  = inDirectory lsof dir [p] ++ inDirectory lsof dir l.
Proof.
  unfold inDirectory. cbn [filter].
  destruct (match getProcessCwd lsof p with
            | Some c => jseqb c dir
            | None => false
            end); reflexivity.
Qed.

Lemma fold_addPid (lsof : Z -> option jsstring) (l : list Z)
    (m : ProcessMap) (dir : jsstring) :
  NoDup (keys m) ->
  NoDup (keys (fold_left (addPid lsof) l m))
  /\ get (fold_left (addPid lsof) l m) dir
     = extend (get m dir) (inDirectory lsof dir l).
Proof.
  revert m. induction l as [| p l IH]; intros m Hm; cbn [fold_left].
  - split; [exact Hm |]. cbn. destruct (get m dir); cbn [extend];
      [now rewrite app_nil_r | reflexivity].
  - destruct (IH (addPid lsof m p) (addPid_keys lsof m p Hm)) as [Hk Hg].
    split; [exact Hk |].
    rewrite Hg, addPid_get, extend_extend, <- inDirectory_cons. reflexivity.
Qed.

Lemma collect_keys_distinct (lsof : Z -> option jsstring) (pidList : list Z) :
  NoDup (keys (collect lsof pidList)).
Proof. apply (fold_addPid lsof pidList [] []). constructor. Qed.

Lemma collect_lookup (lsof : Z -> option jsstring) (pidList : list Z)
    (dir : jsstring) :
  get (collect lsof pidList) dir
  = match inDirectory lsof dir pidList with
    | [] => None
    | found => Some found
    end.
Proof.
  unfold collect.
  destruct (fold_addPid lsof pidList [] dir (NoDup_nil _)) as [_ ->].
  cbn [get extend]. destruct (inDirectory lsof dir pidList); reflexivity.
Qed.

(** X23: [poll] groups the processes by working directory. The map it
    builds has no directory twice, and looking a directory up gives the
    processes found in it, in the order of the pid list; a directory in
    which none was found (or whose lookup failed or came back blank) has
    no entry. *)
Theorem collect_groups_by_directory (lsof : Z -> option jsstring)
    (pidList : list Z) :
  NoDup (keys (collect lsof pidList))
  /\ forall dir,
       get (collect lsof pidList) dir
       = match inDirectory lsof dir pidList with
         | [] => None
         | found => Some found
         end.
Proof.
  split; [apply collect_keys_distinct | apply collect_lookup].
Qed.

Example collect_sample :
  collect sampleLsof [10; 11; 12; 13]
  = [(units "/work", [ {| pid := 10; cwd := units "/work" |};
                       {| pid := 12; cwd := units "/work" |} ]);
     (units "/work/wt", [ {| pid := 11; cwd := units "/work/wt" |} ])].
Proof. vm_compute. reflexivity. Qed.

Lemma get_in (m : ProcessMap) (k : jsstring) (v : list ClaudeProcess) :
  get m k = Some v -> In (k, v) m.
Proof.
  induction m as [| [k0 v0] m IH]; cbn [get]; [discriminate |].
  destruct (jseqb k0 k) eqn:E.
  - apply jseqb_eq in E. intros H. injection H as ->. subst. now left.
  - intros H. right. apply IH, H.
Qed.

Lemma in_get (m : ProcessMap) (k : jsstring) (v : list ClaudeProcess) :
  NoDup (keys m) -> In (k, v) m -> get m k = Some v.
Proof.
  unfold keys. induction m as [| [k0 v0] m IH]; intros Hnd Hin;
    [contradiction |].
  cbn [map fst] in Hnd. inversion Hnd as [| ? ? Hout Hnd']; subst.
  cbn [get]. destruct Hin as [Heq | Hin].
  - injection Heq as -> ->. now rewrite jseqb_refl.
  - destruct (jseqb k0 k) eqn:E.
    + apply jseqb_eq in E. subst k0. exfalso. apply Hout.
      change k with (fst (k, v)). apply in_map, Hin.
    + apply IH; assumption.
Qed.

Lemma pids_included (va vb : list ClaudeProcess) :
  forallb (fun p => existsb (Z.eqb p) (pids vb)) (pids va) = true ->
  incl (pids va) (pids vb).
Proof.
  intros H p Hin. rewrite forallb_forall in H. specialize (H p Hin).
  apply existsb_exists in H. destruct H as (q & Hq & Heq).
  apply Z.eqb_eq in Heq. now subst q.
Qed.

(** X24: what [mapsEqual] answering [true] guarantees, for maps without a
    repeated key: both maps have the same directories, and under each
    directory the second map lists as many processes as the first and
    every pid of the first; when the first lists no pid twice, the two
    lists hold the same pids, possibly in another order. *)
Theorem mapsEqual_sound (a b : ProcessMap) :
  NoDup (keys a) -> NoDup (keys b) -> mapsEqual a b = true ->
  (forall dir, In dir (keys a) <-> In dir (keys b))
  /\ forall dir va,
       get a dir = Some va ->
       exists vb,
         get b dir = Some vb
         /\ List.length va = List.length vb
         /\ incl (pids va) (pids vb)
         /\ (NoDup (pids va) -> Permutation.Permutation (pids va) (pids vb)).
Proof.
  intros Ha Hb Heq. unfold mapsEqual in Heq.
  destruct (Nat.eqb_spec (List.length a) (List.length b)) as [Hlen | ?];
    [| discriminate].
  cbn [negb] in Heq. rewrite forallb_forall in Heq.
  assert (Hentry : forall dir va, In (dir, va) a ->
            exists vb, get b dir = Some vb
                       /\ List.length va = List.length vb
                       /\ incl (pids va) (pids vb)).
  { intros dir va Hin. specialize (Heq (dir, va) Hin). cbn [fst snd] in Heq.
    destruct (get b dir) as [vb |]; [| discriminate].
    destruct (Nat.eqb_spec (List.length va) (List.length vb)) as [Hl | ?];
      [| discriminate].
    exists vb. repeat split; [exact Hl | apply pids_included, Heq]. }
  assert (Hincl : incl (keys a) (keys b)).
  { intros dir Hin. unfold keys in Hin. apply in_map_iff in Hin.
    destruct Hin as ([k va] & <- & Hin). cbn [fst].
    destruct (Hentry k va Hin) as (vb & Hget & _).
    apply get_in in Hget. unfold keys.
    change k with (fst (k, vb)). apply in_map, Hget. }
  split.
  - intros dir. split; [apply Hincl |].
    apply (NoDup_length_incl Ha); [| exact Hincl].
    unfold keys. rewrite !length_map. lia.
  - intros dir va Hget. apply get_in in Hget.
    destruct (Hentry dir va Hget) as (vb & Hb' & Hl & Hi).
    exists vb. repeat split; try assumption.
    intros Hnd. apply Permutation.NoDup_Permutation_bis; [exact Hnd | | exact Hi].
    unfold pids. rewrite !length_map. lia.
Qed.

Lemma mapsEqual_refl (a : ProcessMap) : NoDup (keys a) -> mapsEqual a a = true.
Proof.
  intros Ha. unfold mapsEqual. rewrite Nat.eqb_refl. cbn [negb].
  apply forallb_forall. intros [k v] Hin. cbn [fst snd].
  rewrite (in_get a k v Ha Hin), Nat.eqb_refl. cbn [negb].
  apply forallb_forall. intros p Hp. apply existsb_exists.
  exists p. split; [exact Hp | apply Z.eqb_refl].
Qed.

Lemma mapsEqual_sound_witness :
  In (units "/work/wt") (keys (collect sampleLsof [10; 11; 12]))
  <-> In (units "/work/wt") (keys (collect sampleLsof [12; 11; 10])).
Proof.
  refine (proj1 (mapsEqual_sound (collect sampleLsof [10; 11; 12])
                   (collect sampleLsof [12; 11; 10]) _ _ _)
                (units "/work/wt")).
  - apply collect_keys_distinct.
  - apply collect_keys_distinct.
  - vm_compute. reflexivity.
Defined.

(** X25: polling again with nothing changed is silent. After a poll, a
    second poll that finds the same pids in the same directories keeps
    the map and does not notify the listeners. *)
Theorem poll_settles (processes : ProcessMap) (lsof : Z -> option jsstring)
    (pidList : list Z) :
  poll (fst (poll processes lsof pidList)) lsof pidList
  = (fst (poll processes lsof pidList), false).
Proof.
  unfold poll. cbv zeta.
  destruct (mapsEqual processes (collect lsof pidList)) eqn:Heq;
    cbn [negb fst].
  - rewrite Heq. reflexivity.
  - rewrite mapsEqual_refl by apply collect_keys_distinct. reflexivity.
Qed.




End TrackerFacts.

(** ** Numbers in text *)

Section JsNumberFacts.
Import Compositor JsNumber.
Local Open Scope N_scope.

(** A non-empty sequence of decimal digits. *)
Local Abbreviation numeral :=
  (fun ds : jsstring => ds <> [] /\ Forall (fun u => isDigit u = true) ds).

Lemma isDigit_range (u : N) : isDigit u = true <-> 48 <= u <= 57.
Proof.
  unfold isDigit. rewrite andb_true_iff, !N.leb_le. reflexivity.
Qed.

Lemma digit_not_space (u : N) : isDigit u = true -> isWhiteSpace u = false.
Proof.
  intros H. apply isDigit_range in H.
  assert (Hcases : u = 48 \/ u = 49 \/ u = 50 \/ u = 51 \/ u = 52 \/ u = 53
                   \/ u = 54 \/ u = 55 \/ u = 56 \/ u = 57) by lia.
  repeat (destruct Hcases as [-> | Hcases]; [reflexivity |]).
  subst u. reflexivity.
Qed.

Lemma pos_below_size (p : positive) :
  N.pos p < 2 ^ N.of_nat (Pos.size_nat p).
Proof.
  induction p as [p IH | p IH |]; cbn [Pos.size_nat];
    rewrite ?Nat2N.inj_succ, ?N.pow_succ_r'; lia.
Qed.

Lemma below_size (n : N) : n < 2 ^ N.of_nat (N.size_nat n).
Proof. destruct n as [| p]; [reflexivity | apply pos_below_size]. Qed.

Lemma digitsValue_snoc (r : N) (value : N -> N) (ds : jsstring) (d : N) :
  digitsValue r value (ds ++ [d]) = r * digitsValue r value ds + value d.
Proof. unfold digitsValue. rewrite fold_left_app. reflexivity. Qed.

Lemma decimalFuel_spec (fuel : nat) (n : N) :
  n < 2 ^ N.of_nat fuel ->
  numeral (decimalFuel (S fuel) n)
  /\ digitsValue 10 (fun d => d - 48) (decimalFuel (S fuel) n) = n.
Proof.
  revert n. induction fuel as [| fuel IH]; intros n Hn.
  - assert (n = 0) by (cbn in Hn; lia). subst n. cbn.
    repeat split; [discriminate | repeat constructor].
  - change (decimalFuel (S (S fuel)) n)
      with (if n <? 10 then [48 + n]
            else decimalFuel (S fuel) (n / 10) ++ [48 + n mod 10]).
    destruct (N.ltb_spec n 10) as [Hlt | Hge].
    + repeat split.
      * discriminate.
      * repeat constructor. apply isDigit_range. lia.
      * unfold digitsValue. cbn [fold_left]. lia.
    + rewrite Nat2N.inj_succ, N.pow_succ_r' in Hn.
      assert (Hdiv : n / 10 < 2 ^ N.of_nat fuel).
      { apply N.Div0.div_lt_upper_bound.
        apply N.lt_le_trans with (2 * 2 ^ N.of_nat fuel); [exact Hn |].
        apply N.mul_le_mono_r. lia. }
      destruct (IH (n / 10) Hdiv) as [[Hne Hall] Hval].
      assert (Hmod : n mod 10 < 10) by (apply N.mod_upper_bound; lia).
      repeat split.
      * intros Heq. apply app_eq_nil in Heq. destruct Heq as [_ Heq].
        discriminate Heq.
      * apply Forall_app. split; [exact Hall |].
        repeat constructor. apply isDigit_range.
        generalize dependent (n mod 10). intros; lia.
      * rewrite digitsValue_snoc, Hval.
        pose proof (N.div_mod n 10 ltac:(lia)) as Hdm.
        generalize dependent (n mod 10). generalize dependent (n / 10).
        intros; lia.
Qed.

Lemma decimal_numeral (n : N) : numeral (decimal n).
Proof. apply (decimalFuel_spec _ n (below_size n)). Qed.

Lemma decimal_value (n : N) :
  digitsValue 10 (fun d => d - 48) (decimal n) = n.
Proof. apply (decimalFuel_spec _ n (below_size n)). Qed.

Lemma takeWhile_all (p : N -> bool) (ds rest : jsstring) :
  Forall (fun u => p u = true) ds ->
  match rest with [] => True | u :: _ => p u = false end ->
  takeWhile p (ds ++ rest) = ds.
Proof.
  intros Hall Hrest. induction Hall as [| d ds Hd _ IH]; cbn [app takeWhile].
  - destruct rest as [| u rest]; [reflexivity |].
    cbn [takeWhile]. now rewrite Hrest.
  - now rewrite Hd, IH.
Qed.

Lemma trimStart_digit (d : N) (t : jsstring) :
  isDigit d = true -> trimStart (d :: t) = d :: t.
Proof. intros H. cbn [trimStart]. now rewrite (digit_not_space d H). Qed.

Lemma parseInt_numeral (hexAllowed : bool) (ds : jsstring) :
  numeral ds ->
  parseInt hexAllowed ds
  = Some (Z.of_N (digitsValue 10 (fun d => d - 48) ds)).
Proof.
  intros [Hne Hall]. destruct ds as [| d t]; [contradiction |].
  inversion Hall as [| ? ? Hd Ht]; subst.
  unfold parseInt. rewrite (trimStart_digit d t Hd). cbv zeta.
  pose proof (proj1 (isDigit_range d) Hd) as Hrange.
  destruct (N.eqb_spec d 45) as [? | _]; [lia |].
  destruct (N.eqb_spec d 43) as [? | _]; [lia |]. cbn [orb].
  assert (Hhex : hexAllowed
                 && match d :: t with
                    | z :: x :: _ => (z =? 48) && ((x =? 120) || (x =? 88))
                    | _ => false
                    end = false).
  { destruct t as [| x t']; [apply andb_false_r |].
    inversion Ht as [| ? ? Hx _]; subst.
    apply isDigit_range in Hx.
    destruct (N.eqb_spec x 120) as [? | _]; [lia |].
    destruct (N.eqb_spec x 88) as [? | _]; [lia |].
    now rewrite !andb_false_r. }
  rewrite Hhex.
  assert (Htake : takeWhile isDigit (d :: t) = d :: t).
  { pose proof (takeWhile_all isDigit (d :: t) [] Hall I) as H.
    now rewrite app_nil_r in H. }
  rewrite Htake. reflexivity.
Qed.

(** The decimal text of a natural number parses, with or without the
    radix argument, to that number. *)
Lemma parseInt_decimal (hexAllowed : bool) (n : N) :
  parseInt hexAllowed (decimal n) = Some (Z.of_N n).
Proof.
  rewrite (parseInt_numeral hexAllowed _ (decimal_numeral n)).
  now rewrite decimal_value.
Qed.

(** X27: the pseudo-terminal gets the size of the emulator. The helper
    reads back from its environment the dimension the component wrote
    there, taken from its prop or the default; only a dimension of 0 is
    read back as the default. *)
Theorem helper_dimension_follows_component (prop : option N) (default : N) :
  propOr prop default < 2 ^ 53 ->
  helperDimension (Some (envText (propOr prop default))) (Z.of_N default)
  = Z.of_N (if propOr prop default =? 0 then default
            else propOr prop default).
Proof.
  intros _. unfold helperDimension, envText. rewrite parseInt_numeral
    by apply decimal_numeral.
  rewrite decimal_value.
  destruct (N.eqb_spec (propOr prop default) 0) as [-> | Hne];
    [reflexivity |].
  destruct (Z.eqb_spec (Z.of_N (propOr prop default)) 0) as [? | _];
    [lia | reflexivity].
Qed.

Lemma helper_dimension_follows_component_witness :
  helperDimension (Some (envText (propOr (Some 120) 90))) 90 = 120%Z
  /\ helperDimension (Some (envText (propOr (Some 0) 90))) 90 = 90%Z.
Proof.
  split.
  - apply (helper_dimension_follows_component (Some 120) 90). reflexivity.
  - apply (helper_dimension_follows_component (Some 0) 90). reflexivity.
Defined.

Lemma numeral_head (ds : jsstring) :
  numeral ds -> exists d t, ds = d :: t /\ isDigit d = true.
Proof.
  intros [Hne Hall]. destruct ds as [| d t]; [contradiction |].
  inversion Hall; subst. eauto.
Qed.

Lemma numeral_rev (ds : jsstring) : numeral ds -> numeral (rev ds).
Proof.
  intros [Hne Hall]. split; [| apply Forall_rev, Hall].
  intros H. apply (f_equal (@rev N)) in H. rewrite rev_involutive in H.
  contradiction.
Qed.

Lemma trimEnd_newline (body : jsstring) :
  (exists d t, rev body = d :: t /\ isDigit d = true) ->
  trimEnd (body ++ [10]) = body.
Proof.
  intros (d & t & Hrev & Hd). unfold trimEnd.
  rewrite rev_app_distr. cbn [rev app trimStart].
  change (isWhiteSpace 10) with true. cbv iota.
  rewrite Hrev, (trimStart_digit d t Hd), <- Hrev. apply rev_involutive.
Qed.

Lemma trim_numeral (ds : jsstring) : numeral ds -> trim ds = ds.
Proof.
  intros H. unfold trim, trimEnd.
  destruct (numeral_head ds H) as (d & t & -> & Hd).
  rewrite (trimStart_digit d t Hd).
  destruct (numeral_head _ (numeral_rev _ H)) as (d' & t' & Hrev & Hd').
  rewrite Hrev, (trimStart_digit d' t' Hd'), <- Hrev. apply rev_involutive.
Qed.

Lemma digit_not_newline (u : N) : isDigit u = true -> (u =? 10) = false.
Proof. intros H. apply isDigit_range in H. apply N.eqb_neq. lia. Qed.

Lemma splitLines_line (ds rest : jsstring) :
  Forall (fun u => isDigit u = true) ds ->
  splitLines (ds ++ 10 :: rest) = ds :: splitLines rest.
Proof.
  induction 1 as [| d ds Hd _ IH]; cbn [app splitLines]; [reflexivity |].
  now rewrite (digit_not_newline d Hd), IH.
Qed.

Lemma splitLines_last (ds : jsstring) :
  Forall (fun u => isDigit u = true) ds -> splitLines ds = [ds].
Proof.
  induction 1 as [| d ds Hd _ IH]; cbn [splitLines]; [reflexivity |].
  now rewrite (digit_not_newline d Hd), IH.
Qed.

Lemma splitLines_pgrep (l : list N) (p : N) :
  splitLines (pgrepOutput l ++ decimal p) = map decimal l ++ [decimal p].
Proof.
  unfold pgrepOutput. induction l as [| q l IH]; cbn [flat_map map app].
  - apply splitLines_last, decimal_numeral.
  - rewrite <- !app_assoc. cbn [app].
    rewrite splitLines_line by apply decimal_numeral. now rewrite IH.
Qed.

Lemma pgrep_head (l : list N) (p : N) :
  exists d t, pgrepOutput l ++ decimal p = d :: t /\ isDigit d = true.
Proof.
  destruct l as [| q l]; cbn [pgrepOutput flat_map app].
  - apply numeral_head, decimal_numeral.
  - destruct (numeral_head _ (decimal_numeral q)) as (d & t & -> & Hd).
    cbn [app]. eauto.
Qed.

Lemma trim_pgrep (l : list N) (p : N) :
  trim (pgrepOutput (l ++ [p])) = pgrepOutput l ++ decimal p.
Proof.
  unfold pgrepOutput at 1. rewrite flat_map_app. cbn [flat_map].
  rewrite app_nil_r, app_assoc. fold (pgrepOutput l).
  unfold trim.
  destruct (pgrep_head l p) as (d & t & Hhead & Hd).
  rewrite Hhead. cbn [app]. rewrite (trimStart_digit d _ Hd).
  change (d :: t ++ [10]) with ((d :: t) ++ [10]). rewrite <- Hhead.
  apply trimEnd_newline. rewrite rev_app_distr.
  destruct (numeral_head _ (numeral_rev _ (decimal_numeral p)))
    as (d' & t' & -> & Hd').
  cbn [app]. eauto.
Qed.

(** X28: [getClaudePids] reads what [pgrep] prints. On an output that
    lists pids in decimal, one per line, it returns exactly those pids in
    that order; on an empty output it returns none. *)
Theorem getClaudePids_reads_pgrep (pidList : list N) :
  Forall (fun p => p < 2 ^ 53) pidList ->
  getClaudePids (Some (pgrepOutput pidList)) = map Z.of_N pidList.
Proof.
  intros _. unfold getClaudePids.
  destruct (rev pidList) as [| p rl] eqn:Hrev.
  - apply (f_equal (@rev N)) in Hrev. rewrite rev_involutive in Hrev.
    subst pidList. reflexivity.
  - apply (f_equal (@rev N)) in Hrev. rewrite rev_involutive in Hrev.
    cbn [rev] in Hrev. subst pidList. set (l := rev rl).
    rewrite trim_pgrep, splitLines_pgrep.
    replace (map decimal l ++ [decimal p]) with (map decimal (l ++ [p]))
      by (rewrite map_app; reflexivity).
    generalize (l ++ [p]). clear. intros l.
    induction l as [| q l IH]; [reflexivity |].
    cbn [map filter]. rewrite (trim_numeral _ (decimal_numeral q)).
    destruct (numeral_head _ (decimal_numeral q)) as (d & t & Hq & _).
    rewrite Hq at 1. cbn [nonempty map].
    rewrite (trim_numeral _ (decimal_numeral q)), parseInt_decimal.
    cbn [numbers]. now rewrite IH.
Qed.

Lemma getClaudePids_reads_pgrep_witness :
  getClaudePids (Some (pgrepOutput [4711; 8; 1234567]))
  = [4711; 8; 1234567]%Z.
Proof.
  apply (getClaudePids_reads_pgrep [4711; 8; 1234567]).
  repeat constructor.
Defined.

End JsNumberFacts.

(** ** Keys and keystrokes on their way to the child *)

Section KeystrokeFacts.
Import Js Supervisor.
Local Open Scope string_scope.
Local Open Scope Z_scope.

Lemma ptyWrites_app (a b : list Effect) :
  ptyWrites (a ++ b) = (ptyWrites a ++ ptyWrites b)%list.
Proof.
  induction a as [| e a IH]; [reflexivity |].
  destruct e; cbn [app ptyWrites]; rewrite IH; reflexivity.
Qed.

Lemma step_keeps_child (env : Env) (st : State) (ev : Event) :
  ptyProcess st <> None -> ptyProcess (fst (step env st ev)) <> None.
Proof.
  intros H. destruct ev as [t data | x | data |]; cbn [step].
  - unfold onData. destruct (t - startTime st <? 2000); [| exact H].
    destruct (negb (hasRetried st) && truthy (originalSessionId env)
              && (resumeIndex env >=? 0)); exact H.
  - unfold onExit.
    destruct (negb (exitCode x =? 0) && (now x - startTime st <? 2000)
              && negb (hasRetried st) && truthy (originalSessionId env));
      [| exact H].
    destruct (signatureFound (outputBuffer st)); [discriminate | exact H].
  - unfold onStdin. destruct (ptyProcess st) eqn:E; cbn [fst]; congruence.
  - unfold onSignal. destruct (ptyProcess st) eqn:E; cbn [fst]; congruence.
Qed.

Lemma step_writes (env : Env) (st : State) (ev : Event) :
  ptyProcess st <> None ->
  existsb isProcessExit (snd (step env st ev)) = false ->
  ptyWrites (snd (step env st ev)) = typed [ev].
Proof.
  intros H Halive. destruct ev as [t data | x | data |]; cbn [step] in *.
  - unfold onData. destruct (t - startTime st <? 2000); [| reflexivity].
    destruct (negb (hasRetried st) && truthy (originalSessionId env)
              && (resumeIndex env >=? 0)); reflexivity.
  - unfold onExit in *.
    destruct (negb (exitCode x =? 0) && (now x - startTime st <? 2000)
              && negb (hasRetried st) && truthy (originalSessionId env));
      [| discriminate Halive].
    destruct (signatureFound (outputBuffer st)); [| discriminate Halive].
    cbn [startPty snd]. rewrite ptyWrites_app.
    destruct (fs x); reflexivity.
  - unfold onStdin. destruct (ptyProcess st); [reflexivity | contradiction].
  - unfold onSignal in Halive. destruct (ptyProcess st); discriminate Halive.
Qed.

Lemma run_writes (env : Env) (evs : list Event) (st : State) :
  ptyProcess st <> None ->
  existsb isProcessExit (snd (run env st evs)) = false ->
  ptyWrites (snd (run env st evs)) = typed evs.
Proof.
  revert st. induction evs as [| ev evs IH]; intros st H Halive;
    [reflexivity |].
  cbn [run] in *.
  pose proof (step_keeps_child env st ev H) as Hkeep.
  pose proof (step_writes env st ev H) as Hstep.
  destruct (step env st ev) as [st1 out]. cbn [fst snd] in *.
  destruct (existsb isProcessExit out) eqn:Hout.
  - cbn [snd] in Halive. congruence.
  - specialize (IH st1 Hkeep).
    destruct (run env st1 evs) as [st2 out2]. cbn [snd] in *.
    rewrite existsb_app, Hout in Halive. cbn [orb] in Halive.
    rewrite ptyWrites_app, (Hstep eq_refl), (IH Halive).
    destruct ev; reflexivity.
Qed.

(** X29: no keystroke is lost while the supervisor lives. As long as the
    supervisor has not exited, the chunks written to the pty are exactly
    the chunks read from stdin, in the same order, a restart of the child
    in between included. *)
Theorem stdin_reaches_child (env : Env) (t0 : Z) (evs : list Event) :
  existsb isProcessExit (snd (session env t0 evs)) = false ->
  ptyWrites (snd (session env t0 evs)) = typed evs.
Proof.
  unfold session, boot, startPty. intros Halive.
  match goal with
  | |- context [run env ?s evs] =>
    pose proof (run_writes env evs s ltac:(discriminate)) as Hrun;
    destruct (run env s evs) as [st1 out1]
  end.
  cbn [snd app existsb isProcessExit orb ptyWrites] in *.
  apply Hrun, Halive.
Qed.

Lemma stdin_reaches_child_witness :
  ptyWrites (snd (session resumeEnv 0
       [StdinData "a"; PtyData 300 "No conversation found";
        PtyExit quickFailure; StdinData "b"]))
  = ["a"; "b"].
Proof. apply stdin_reaches_child. reflexivity. Defined.

End KeystrokeFacts.

Section DispatchFacts.
Import Dashboard.
Local Open Scope string_scope.

(** X30: which keys reach the child. With the terminal focused and open
    on the home route, the keyboard handler hands a key to [sendKey]
    exactly when it is not Ctrl+Q, Ctrl+S or Ctrl+O and not an unshifted
    Tab outside a dialog; in every other situation of focus, terminal and
    route no key is handed on. *)
Theorem keys_reaching_terminal (key : KeyEvent) (focusArea : FocusArea)
    (isTerminalOpen hasActiveTab isDialogOpen isOnHomeRoute : bool) :
  dispatch key focusArea isTerminalOpen hasActiveTab isDialogOpen
           isOnHomeRoute = ToTerminal
  <-> (focusArea = terminal /\ isTerminalOpen = true
       /\ hasActiveTab = true /\ isOnHomeRoute = true)
      /\ ~ (keyCtrl key = true
            /\ In (keyName key) ["q"; "s"; "o"])
      /\ ~ (keyName key = "tab" /\ keyShift key = false
            /\ isDialogOpen = false).
Proof.
  unfold dispatch.
  assert (Hreserved : forall n,
            In n ["q"; "s"; "o"] ->
            keyCtrl key && String.eqb (keyName key) n = true ->
            keyCtrl key = true /\ In (keyName key) ["q"; "s"; "o"]).
  { intros n Hin H. apply andb_true_iff in H. destruct H as [Hc Hn].
    apply String.eqb_eq in Hn. subst n. auto. }
  destruct (keyCtrl key && String.eqb (keyName key) "q") eqn:Hq.
  { split; [discriminate |]. intros (_ & Hc & _). exfalso. apply Hc.
    apply (Hreserved "q"); [cbn; tauto | exact Hq]. }
  destruct (keyCtrl key && String.eqb (keyName key) "s") eqn:Hs.
  { split; [discriminate |]. intros (_ & Hc & _). exfalso. apply Hc.
    apply (Hreserved "s"); [cbn; tauto | exact Hs]. }
  destruct (keyCtrl key && String.eqb (keyName key) "o") eqn:Ho.
  { split; [discriminate |]. intros (_ & Hc & _). exfalso. apply Hc.
    apply (Hreserved "o"); [cbn; tauto | exact Ho]. }
  destruct (String.eqb (keyName key) "tab" && negb (keyShift key)
            && negb isDialogOpen && isOnHomeRoute) eqn:Htab.
  { split; [discriminate |]. intros ((_ & _ & _ & Hh) & _ & Ht).
    exfalso. apply Ht.
    rewrite !andb_true_iff, !negb_true_iff, String.eqb_eq in Htab. tauto. }
  destruct (match focusArea with terminal => true | _ => false end
            && isTerminalOpen && hasActiveTab && isOnHomeRoute) eqn:Hterm.
  - split; [intros _ | reflexivity].
    rewrite !andb_true_iff in Hterm.
    destruct Hterm as [[[Hf Hopen] Hact] Hhome].
    split; [| split].
    + destruct focusArea; try discriminate Hf. auto.
    + intros [Hc Hin]. rewrite Hc in Hq, Hs, Ho. cbn [andb In] in *.
      destruct Hin as [H | [H | [H | []]]]; rewrite <- H in *;
        discriminate.
    + intros (Hn & Hshift & Hdlg).
      rewrite Hn, Hshift, Hdlg, Hhome in Htab. discriminate Htab.
  - split; [discriminate |]. intros ((-> & -> & -> & ->) & _).
    discriminate Hterm.
Qed.

Lemma ctrl_c_reaches_child :
  Terminal.written
    (keyToChild Terminal.mounted
       {| keyName := "c"; keySequence := Some Terminal.ETX; keyCtrl := true;
          keyMeta := false; keyShift := false |}
       terminal true true false true)
  = Terminal.ETX.
Proof. reflexivity. Qed.

End DispatchFacts.
